(** * mimikit / mmk : shape arithmetic of the WaveNet stacks and the
      dataset-splitting glue

    Shallow embedding of
      - [src/mimikit/networks/wavenet.py]  ([WaveNetLayer], [WNNetwork]),
      - [src/mmk/freqnet/freqnet.py]       ([FreqNet.receptive_field]),
      - [src/mimikit/kit/db_dataset.py]    ([DBDataset], [DBDataModule]),
      - [src/mimikit/kit/sub_models/data.py] ([DataSubModule.random_val_batch]).

    Python integers are [Z]; counts handed to [range] and the indices it
    yields are [nat]; Python floats are the binary64 numbers of
    [PrimFloat]; an exception is a value of [exn] in the [Raise] branch of
    [result]. *)

From Stdlib Require Import ZArith Lia Floats Uint63 SpecFloat.
From stdpp Require Import base option list gmap strings.

Local Open Scope Z_scope.

(* Decimal float literals denote the nearest binary64, as in Python. *)
#[local] Set Warnings "-inexact-float".

(** ** Exceptions *)

Inductive exn : Type :=
  | ValueError (msg : string)
  | ZeroDivisionError
  | OverflowError
  | IndexError
  | NotImplementedError
  | LibraryError (msg : string).

Inductive result (A : Type) : Type :=
  | Ok (a : A)
  | Raise (e : exn).
Arguments Ok {A} a.
Arguments Raise {A} e.

(** Sequencing: the first exception aborts what follows. Written with
    stdpp's [x ← r; k]. *)
#[global] Instance result_bind : MBind result := fun A B k r =>
  match r with
  | Ok a => k a
  | Raise e => Raise e
  end.

(** [for a in l: acc = body(acc, a)] where the body may raise. *)
Fixpoint for_each {A S : Type} (body : S -> A -> result S) (l : list A) (s : S)
  : result S :=
  match l with
  | [] => Ok s
  | a :: l' => s' ← body s a; for_each body l' s'
  end.

(** [enumerate(l)] *)
Definition enumerate {A : Type} (l : list A) : list (nat * A) :=
  zip (seq 0 (length l)) l.

(** [l[:-1]] *)
Definition but_last {A : Type} (l : list A) : list A :=
  take (length l - 1)%nat l.

(** [[f(x) for x in l]] where [f] may raise: left to right, the first
    exception aborts the comprehension. *)
Fixpoint map_result {A B : Type} (f : A -> result B) (l : list A)
  : result (list B) :=
  match l with
  | [] => Ok []
  | a :: l' => b ← f a; bs ← map_result f l'; Ok (b :: bs)
  end.

(** [sum(l)] over Python integers. *)
Definition sum (l : list Z) : Z := fold_left Z.add l 0.

(** ** Integers that pass through a binary64

    [output_length] computes [numerator / self.stride] (true division, a
    float) and [1 + ...] (a float addition) before [math.floor]. With
    stride 1 all values are integers, and the only effect of the floats is
    the rounding of an integer to 53 significant bits, ties to even. *)

Definition binary64_round (z : Z) : Z :=
  let a := Z.abs z in
  if a <? 2 ^ 53 then z
  else
    let e := Z.log2 a - 52 in
    let q := a / 2 ^ e in
    let r := a mod 2 ^ e in
    let half := 2 ^ (e - 1) in
    let q' := if r <? half then q
              else if half <? r then q + 1
              else if Z.even q then q else q + 1 in
    Z.sgn z * (q' * 2 ^ e).

(** [z / 1] for an integer [z]: the nearest float, or [OverflowError]
    ("integer division result too large for a float"). *)
Definition true_div_1 (z : Z) : result Z :=
  let v := binary64_round z in
  if 2 ^ 1024 <=? Z.abs v then Raise OverflowError else Ok v.

(** [math.floor(1 + x)] for an integer-valued float [x]. *)
Definition floor_one_plus (x : Z) : result Z :=
  let v := binary64_round (1 + x) in
  if 2 ^ 1024 <=? Z.abs v then Raise OverflowError else Ok v.

(** ** [WaveNetLayer] *)

Module WaveNetLayer.

(** The fields the shape arithmetic reads. [layer_i] is an index yielded by
    [range]. [stride] is never passed by [WNNetwork.layers_], so every layer
    of a network keeps the dataclass default [stride = 1]; the embedding
    fixes it. *)
Record t : Type := mk {
  layer_i : nat;
  kernel_size : Z;
  pad_input : Z;
  accum_outputs : Z
}.

(** [self.kernel_size ** self.layer_i] *)
Definition dilation (self : t) : Z :=
  kernel_size self ^ Z.of_nat (layer_i self).

Definition shift_diff (self : t) : Z :=
  if pad_input self =? 0 then (kernel_size self - 1) * dilation self else 0.

Definition input_padding (self : t) : Z :=
  if negb (pad_input self =? 0)
  then pad_input self * (kernel_size self - 1) * dilation self
  else 0.

Definition output_padding (self : t) : Z :=
  - accum_outputs self * shift_diff self.

Definition receptive_field (self : t) : Z :=
  kernel_size self * dilation self.

Definition output_length (self : t) (input_length : Z) : result Z :=
  if negb (pad_input self =? 0) then Ok input_length
  else
    let numerator := input_length - dilation self * (kernel_size self - 1) - 1 in
    q ← true_div_1 numerator;
    floor_one_plus q.

End WaveNetLayer.

(** ** [WNNetwork] *)

Module WNNetwork.

(** The hyperparameters the shape arithmetic reads. [n_layers] holds the
    block sizes handed to [range]. *)
Record t : Type := mk {
  n_layers : list nat;
  kernel_size : Z;
  accum_outputs : Z;
  pad_input : Z
}.

(** [for block in self.n_layers for i in range(block)] *)
Definition layers_ (self : t) : list WaveNetLayer.t :=
  block ← n_layers self;
  i ← seq 0 block;
  [WaveNetLayer.mk i (kernel_size self) (pad_input self) (accum_outputs self)].

(** One turn of the receptive-field loop of [__post_init__]. When [i] is not
    the last index, [self.layers[i + 1]] exists ([rf_step_next] below), so
    the branch [None] is never taken. *)
Definition rf_step (layers : list WaveNetLayer.t) (rf : Z)
    (il : nat * WaveNetLayer.t) : Z :=
  let '(i, layer) := il in
  if (Z.of_nat i =? Z.of_nat (length layers) - 1) then
    rf + WaveNetLayer.receptive_field layer
  else
    match layers !! (i + 1)%nat with
    | Some next =>
        if (WaveNetLayer.layer_i next =? 0)%nat
        then rf + (WaveNetLayer.receptive_field layer - 1)
        else rf
    | None => rf
    end.

Definition rf_loop (layers : list WaveNetLayer.t) : Z :=
  fold_left (rf_step layers) (enumerate layers) 0.

(** [self.receptive_field] as [__post_init__] leaves it. *)
Definition receptive_field (self : t) : Z := rf_loop (layers_ self).

(** [self.shift] as [__post_init__] leaves it. *)
Definition shift (self : t) : Z :=
  if pad_input self =? 1 then 1
  else if pad_input self =? -1 then receptive_field self
  else sum (map WaveNetLayer.shift_diff (layers_ self)) + 1.

Definition all_output_lengths_from (layers : list WaveNetLayer.t)
    (input_length : Z) : result (Z * list Z) :=
  for_each
    (fun '(out_length, lengths) layer =>
       out_length' ← WaveNetLayer.output_length layer out_length;
       Ok (out_length', lengths ++ [out_length']))
    layers (input_length, []).

Definition all_output_lengths (self : t) (input_length : Z) : result (list Z) :=
  st ← all_output_lengths_from (layers_ self) input_length;
  Ok (snd st).

(** [t[-1]] on a tuple. *)
Definition last_item {A : Type} (l : list A) : result A :=
  match last l with
  | Some a => Ok a
  | None => Raise IndexError
  end.

(** [t[i]] on a tuple, for an index [i >= 0]. *)
Definition item {A : Type} (l : list A) (i : nat) : result A :=
  match l !! i with
  | Some a => Ok a
  | None => Raise IndexError
  end.

(** The three entries of the returned tuple are evaluated from left to
    right. *)
Definition output_shape (self : t) (input_shape : list Z) : result (Z * Z * Z) :=
  batch ← item input_shape 0;
  n ← item input_shape 1;
  lens ← all_output_lengths self n;
  out_length ← last_item lens;
  dim ← last_item input_shape;
  Ok (batch, out_length, dim).

End WNNetwork.

(** ** [FreqNet.receptive_field] *)

Module FreqNet.

(** [FreqLayer] lives in [freq_layer.py]; the method reads only the
    layer's index and the value of its [receptive_field()] call. *)
Record FreqLayer : Type := mkFreqLayer {
  layer_index : nat;
  layer_receptive_field : Z
}.

Definition block_rf_step (layers : list FreqLayer) (block_rf : list Z)
    (il : nat * FreqLayer) : result (list Z) :=
  let '(i, layer) := il in
  match layers !! (i + 1)%nat with
  | Some next =>
      if (layer_index next =? 0)%nat
      then Ok (block_rf ++ [layer_receptive_field layer - 1])
      else Ok block_rf
  | None => Raise IndexError
  end.

Definition receptive_field (layers : list FreqLayer) : result Z :=
  block_rf ← for_each (block_rf_step layers) (enumerate (but_last layers)) [];
  match last layers with
  | Some l => Ok (sum (block_rf ++ [layer_receptive_field l]))
  | None => Raise IndexError
  end.

Section LayerMethods.

(** The method [output_length] of [FreqLayer], which may raise. *)
Variable layer_output_length : FreqLayer -> Z -> result Z.

Definition all_output_lengths (layers : list FreqLayer) (input_length : Z)
  : result (list Z) :=
  st ← for_each
         (fun '(out_length, lengths) layer =>
            out_length' ← layer_output_length layer out_length;
            Ok (out_length', lengths ++ [out_length']))
         layers (input_length, []);
  Ok (snd st).

(** [self.all_output_lengths(input_length)[-1]] *)
Definition output_length (layers : list FreqLayer) (input_length : Z) : result Z :=
  lens ← all_output_lengths layers input_length;
  match last lens with
  | Some n => Ok n
  | None => Raise IndexError
  end.

End LayerMethods.

End FreqNet.

(** ** Python floats

    A [float] is a binary64; [PrimFloat] computes with the same format and
    rounding (to nearest, ties to even). *)

Module PyFloat.

(** An [int] operand of a mixed [int * float]: the nearest float, or
    [OverflowError] ("int too large to convert to float"). *)
Definition float_of_int (z : Z) : result float :=
  match binary_normalize prec emax z 0 false with
  | S754_infinity _ => Raise OverflowError
  | f => Ok (SF2Prim f)
  end.

(** [x / y] *)
Definition truediv (x y : float) : result float :=
  if (y =? 0)%float then Raise ZeroDivisionError else Ok (x / y)%float.

(** [n * x] for an [int] n and a [float] x. *)
Definition mul_int (n : Z) (x : float) : result float :=
  n' ← float_of_int n; Ok (n' * x)%float.

(** [int(x)]: truncation towards zero. *)
Definition int_of_float (x : float) : result Z :=
  match Prim2SF x with
  | S754_nan => Raise (ValueError "cannot convert float NaN to integer")
  | S754_infinity _ => Raise OverflowError
  | S754_zero _ => Ok 0
  | S754_finite s m e =>
      let magnitude := if 0 <=? e then Z.pos m * 2 ^ e else Z.pos m / 2 ^ (- e) in
      Ok (if s then - magnitude else magnitude)
  end.

(** [sum(l)] over floats: the running total starts at the integer 0 and
    each item is added in turn (CPython before 3.12; later versions
    compensate the rounding errors of the additions). *)
Definition sum (l : list float) : float := fold_left PrimFloat.add l 0%float.

End PyFloat.

(** ** [DBDataset] *)

Module DBDataset.

(** A present entry of [splits]: a proportion or a count. An absent entry
    is [None : option number]. *)
Inductive number : Type :=
  | Float (x : float)
  | Int (n : Z).

(** [type(x) is float] *)
Definition is_float (x : number) : bool :=
  match x with Float _ => true | Int _ => false end.

Definition the_floats (l : list number) : list float :=
  omap (fun x => match x with Float f => Some f | Int _ => None end) l.

(** [x is None] *)
Definition is_None {A : Type} (x : option A) : bool :=
  match x with None => true | Some _ => false end.

Definition train_none_msg : string := "the train-set's split cannot be None".
Definition last_zero_msg : string :=
  "the last split rounded to zero element. Please provide a greater float or consider passing ints.".

Section Split.

(** What [split] takes from its surroundings: the value of [len(self)]
    (a subclass defines [__len__]) and torch's
    [random_split(self, lengths)], which yields [Subset]s or raises. *)
Context {Subset : Type}.
Variable len_self : Z.
Variable random_split : list number -> result (list Subset).

(** [[x / sum(splits) for x in splits]] *)
Definition normalize (splits : list float) : result (list float) :=
  map_result (fun x => PyFloat.truediv x (PyFloat.sum splits)) splits.

(** [[int(N * x) for x in splits[:-1]]] *)
Definition as_ints (N : Z) (splits : list float) : result (list Z) :=
  map_result (fun x => nx ← PyFloat.mul_int N x; PyFloat.int_of_float nx)
    (but_last splits).

(** The body of [if all(type(x) is float for x in splits):]. *)
Definition float_lengths (splits : list float) : result (list Z) :=
  splits ← normalize splits;
  let N := len_self in
  counts ← as_ints N splits;
  if N - sum counts =? 0 then Raise (ValueError last_zero_msg)
  else Ok (counts ++ [N - sum counts]).

(** The lengths handed to [random_split]. *)
Definition lengths (splits : list number) : result (list number) :=
  if forallb is_float splits then
    counts ← float_lengths (the_floats splits); Ok (map Int counts)
  else Ok splits.

(** [[i for i, x in zip(range(len(splits)), splits) if x is None]] *)
Definition none_indices (splits : list (option number)) : list nat :=
  fst <$> filter (fun ix => is_None (snd ix) = true)
            (zip (seq 0 (length splits)) splits).

(** [[x for x in splits if x is not None]] *)
Definition present (splits : list (option number)) : list number :=
  omap id splits.

(** [[None if i in nones else sets.pop(0) for i in indices]]; [sets]
    shrinks from the front, [pop] on an empty list raises. *)
Fixpoint reinsert (nones : list nat) (indices : list nat) (sets : list Subset)
  : result (list (option Subset)) :=
  match indices with
  | [] => Ok []
  | i :: indices' =>
      if bool_decide (i ∈ nones) then
        rest ← reinsert nones indices' sets; Ok (None :: rest)
      else
        match sets with
        | [] => Raise IndexError
        | s :: sets' => rest ← reinsert nones indices' sets'; Ok (Some s :: rest)
        end
  end.

(** [any(nones)]: some index is non-zero. *)
Definition any_index (nones : list nat) : bool :=
  existsb (fun i => negb (i =? 0)%nat) nones.

(** [splits[0] is None] *)
Definition first_is_None (splits : list (option number)) : bool :=
  match splits with None :: _ => true | _ => false end.

(** [if any(nones): sets = [...]] and [tuple(sets)] *)
Definition place (nones : list nat) (sets : list Subset)
  : result (list (option Subset)) :=
  if any_index nones
  then (* [range(len(sets + nones))] *)
    reinsert nones (seq 0 (length sets + length nones)) sets
  else Ok (map Some sets).

Definition split (splits : list (option number))
  : result (list (option Subset)) :=
  let has_none := existsb is_None splits in
  if has_none && first_is_None splits
  then Raise (ValueError train_none_msg)
  else
    let nones := if has_none then none_indices splits else [] in
    (* without a [None] the filter is the identity *)
    let splits := present splits in
    splits ← lengths splits;
    sets ← random_split splits;
    place nones sets.

End Split.

(** *** [hparams]

    [Database] (h5data) is seen through what [hparams] reads:
    [self.features] and, for each feature, the [attrs] dictionary of the
    object [getattr(self, feat)]. *)
Record t (V : Type) : Type := mk {
  features : list string;
  attrs : string -> gmap string V
}.
Arguments mk {V} features attrs.
Arguments features {V} self : rename.
Arguments attrs {V} self feat : rename.

(** [feat + "_" + k] *)
Definition param_name (feat k : string) : string :=
  String.append (String.append feat "_") k.

(** [{feat + "_" + k: v for k, v in attrs.items()}] *)
Definition this_feat {V : Type} (feat : string) (a : gmap string V)
  : gmap string V :=
  fold_left (fun d kv => <[param_name feat (fst kv) := snd kv]> d)
    (map_to_list a) ∅.

(** [params.update(this_feat)]: the entries of [this_feat] overwrite. *)
Definition update {V : Type} (params this : gmap string V) : gmap string V :=
  this ∪ params.

Definition hparams {V : Type} (self : t V) : gmap string V :=
  fold_left (fun params feat => update params (this_feat feat (attrs self feat)))
    (features self) ∅.

End DBDataset.

(** ** [DBDataModule] *)

Module DBDataModule.

Import DBDataset.

(** Values of the keyword arguments kept for the loaders. *)
Inductive value : Type :=
  | VBool (b : bool)
  | VInt (n : Z)
  | VStr (s : string)
  | VNone.

Section DataModule.

Context {Subset : Type}.

(** What [train_ds], [val_ds] and [test_ds] can hold. *)
Inductive dataset : Type :=
  | WholeDb
  | Sub (s : Subset).

(** [DataLoader(ds, **kwargs)], as the call that builds it. *)
Record DataLoader : Type := mkDataLoader {
  loader_dataset : option dataset;
  loader_args : gmap string value
}.

Record t : Type := mk {
  in_mem_data : bool;
  splits : option (list (option number));
  loader_kwargs : gmap string value;
  train_ds : option dataset;
  val_ds : option dataset;
  test_ds : option dataset;
  (* kept by the framework around [prepare_data] and [setup] *)
  has_prepared_data : bool;
  has_setup_fit : bool
}.

(** The database behind [self.db]: [prepare_dataset(model, datamodule)]
    may rewrite the data module or raise (the method of [DBDataset]
    itself raises [NotImplementedError]); [len(db)];
    [random_split(db, lengths)]; whether CUDA is there, and the move
    [db.to_tensor(); db.to("cuda")]. *)
Variable prepare_dataset : t -> result t.
Variable len_db : Z.
Variable random_split : list number -> result (list Subset).
Variable cuda_is_available : bool.
Variable db_to_cuda : result unit.

Definition set_prepared (self : t) : t :=
  mk (in_mem_data self) (splits self) (loader_kwargs self) (train_ds self)
     (val_ds self) (test_ds self) true (has_setup_fit self).

Definition prepare_data (self : t) : result t :=
  self ← prepare_dataset self; Ok (set_prepared self).

(** [for ds, attr in zip(sets, ["train_ds", "val_ds", "test_ds"])] *)
Definition assign_sets (self : t) (sets : list (option dataset)) : t :=
  mk (in_mem_data self) (splits self) (loader_kwargs self)
     (match sets with ds :: _ => ds | _ => train_ds self end)
     (match sets with _ :: ds :: _ => ds | _ => val_ds self end)
     (match sets with _ :: _ :: ds :: _ => ds | _ => test_ds self end)
     (has_prepared_data self) true.

(** [not self.splits] *)
Definition no_splits (self : t) : bool :=
  match splits self with
  | None | Some [] => true
  | Some (_ :: _) => false
  end.

(** [setup("fit")] *)
Definition setup_fit (self : t) : result t :=
  _ ← (if in_mem_data self && cuda_is_available then db_to_cuda else Ok tt);
  sets ← (if no_splits self then Ok [Some WholeDb]
          else
            sets ← split len_db random_split (default [] (splits self));
            Ok (map (option_map Sub) sets));
  Ok (assign_sets self sets).

Definition has_val (self : t) : bool :=
  match splits self with
  | None => false
  | Some s =>
      (2 <=? Z.of_nat (length s))
      && match s !! 1%nat with Some (Some _) => true | _ => false end
  end.

(** [if not self.has_prepared_data: self.prepare_data()] *)
Definition ensure_prepared (self : t) : result t :=
  if negb (has_prepared_data self) then prepare_data self else Ok self.

(** [if not self.has_setup_fit: self.setup("fit")] *)
Definition ensure_setup_fit (self : t) : result t :=
  if negb (has_setup_fit self) then setup_fit self else Ok self.

(** The method returns its value and leaves the data module in a new
    state. *)
Definition val_dataloader (self : t) (shuffle : bool)
  : result (t * option DataLoader) :=
  if negb (has_val self) then Ok (self, None)
  else
    self ← ensure_prepared self;
    self ← ensure_setup_fit self;
    let kwargs := <["shuffle" := VBool shuffle]> (loader_kwargs self) in
    Ok (self, Some (mkDataLoader (val_ds self) kwargs)).



Definition has_test (self : t) : bool :=
  match splits self with
  | None => false
  | Some s =>
      (3 <=? Z.of_nat (length s))
      && match s !! 2%nat with Some (Some _) => true | _ => false end
  end.


(** [{k: v for k, v in kwargs.items() if k in valids}], where [valids] are
    the annotated parameters of [DataLoader.__init__]. *)
Definition _filter_loader_kwargs (valids : gset string) (kwargs : gmap string value)
  : gmap string value :=
  fold_left
    (fun d kv => if bool_decide (fst kv ∈ valids) then <[fst kv := snd kv]> d else d)
    (map_to_list kwargs) ∅.

(** [__init__]; the framework starts with both flags down. *)
Definition init (valids : gset string) (in_mem_data : bool)
    (splits : option (list (option number))) (loader_kwargs : gmap string value) : t :=
  mk in_mem_data splits (_filter_loader_kwargs valids loader_kwargs)
     None None None false false.

End DataModule.

End DBDataModule.

(** ** [DataSubModule]

    [random_val_batch] of [sub_models/data.py], over the data module the
    constructor stored in [self.datamodule]. *)

Module DataSubModule.

(** What a call can raise here: an exception of the data module, the
    [TypeError] of [iter(None)], or what [next(iter(loader))] raises. *)
Inductive failure : Type :=
  | Exn (e : exn)
  | TypeError (msg : string)
  | LoaderFailure (msg : string).

Inductive outcome (A : Type) : Type :=
  | Returned (a : A)
  | Failed (f : failure).
Arguments Returned {A} a.
Arguments Failed {A} f.

Definition not_iterable_msg : string := "'NoneType' object is not iterable".

Section Batches.

Context {Subset Batch : Type}.
Variable prepare_dataset : @DBDataModule.t Subset -> result (@DBDataModule.t Subset).
Variable len_db : Z.
Variable random_split : list DBDataset.number -> result (list Subset).
Variable cuda_is_available : bool.
Variable db_to_cuda : result unit.
(** [next(iter(loader))] *)
Variable first_batch : @DBDataModule.DataLoader Subset -> outcome Batch.

Definition random_val_batch (datamodule : @DBDataModule.t Subset)
  : outcome (@DBDataModule.t Subset * Batch) :=
  match DBDataModule.val_dataloader prepare_dataset len_db random_split
          cuda_is_available db_to_cuda datamodule true with
  | Raise e => Failed (Exn e)
  | Ok (_, None) => Failed (TypeError not_iterable_msg)
  | Ok (datamodule, Some loader) =>
      match first_batch loader with
      | Returned b => Returned (datamodule, b)
      | Failed f => Failed f
      end
  end.

End Batches.

End DataSubModule.

(** ** A stand-in for torch's [random_split]

    Used to run [split] on examples. Like torch it refuses lengths that do
    not add up to the length of the dataset; it cuts the indices
    0, 1, ..., N-1 in order where torch cuts a random permutation of them.
    A subset is the pair (first index, length). *)

Module Torch.

Import DBDataset.

Definition sum_mismatch_msg : string :=
  "Sum of input lengths does not equal the length of the input dataset!".

Fixpoint cut (offset : Z) (lengths : list Z) : list (Z * Z) :=
  match lengths with
  | [] => []
  | n :: rest => (offset, n) :: cut (offset + n) rest
  end.

Definition random_split (N : Z) (lengths : list number)
  : result (list (Z * Z)) :=
  ints ← map_result
           (fun x => match x with
                     | Int n => Ok n
                     | Float _ => Raise (LibraryError "lengths must be integers")
                     end)
           lengths;
  if sum ints =? N then Ok (cut 0 ints)
  else Raise (ValueError sum_mismatch_msg).

End Torch.

(** ** Reference totals, written from the specification *)

(** (k - 1) * dilation: the timesteps a layer adds to what is read. *)
Definition span (l : WaveNetLayer.t) : Z :=
  (WaveNetLayer.kernel_size l - 1) * WaveNetLayer.dilation l.

Module Spec.

(** Over the sequence of (index, receptive field) pairs of a stack: every
    layer that ends a block (the next index is 0) counts its receptive
    field minus 1, the very last layer counts it in full. *)
Fixpoint block_end_total (l : list (nat * Z)) : Z :=
  match l with
  | [] => 0
  | (_, rf) :: rest =>
      match rest with
      | [] => rf
      | (j, _) :: _ =>
          (if (j =? 0)%nat then rf - 1 else 0) + block_end_total rest
      end
  end.

(** 1 + the sum over all layers of (k - 1) * dilation. *)
Definition one_plus_spans (layers : list WaveNetLayer.t) : Z :=
  1 + sum (map span layers).

(** (sum over blocks of k^{n_b}) - (B - 1). *)
Definition closed_form (k : Z) (n_layers : list nat) : Z :=
  sum (map (fun n => k ^ Z.of_nat n) n_layers) - (Z.of_nat (length n_layers) - 1).

End Spec.

Definition wn_pairs (layers : list WaveNetLayer.t) : list (nat * Z) :=
  map (fun l => (WaveNetLayer.layer_i l, WaveNetLayer.receptive_field l)) layers.

Definition fn_pairs (layers : list FreqNet.FreqLayer) : list (nat * Z) :=
  map (fun l => (FreqNet.layer_index l, FreqNet.layer_receptive_field l)) layers.

(** Consecutive layers of a stack: the next index restarts at 0, or it
    follows the previous one within a block of one kernel size. *)
Fixpoint chained (l : list WaveNetLayer.t) : Prop :=
  match l with
  | [] => True
  | x :: rest =>
      match rest with
      | [] => True
      | y :: _ =>
          (WaveNetLayer.layer_i y = 0%nat \/
           (WaveNetLayer.layer_i y = S (WaveNetLayer.layer_i x) /\
            WaveNetLayer.kernel_size y = WaveNetLayer.kernel_size x))
          /\ chained rest
      end
  end.

(** The index of the first layer, when there is one, is 0. *)
Definition starts_block (l : list WaveNetLayer.t) : Prop :=
  match l with
  | [] => True
  | x :: _ => WaveNetLayer.layer_i x = 0%nat
  end.

(** The layers of one block of [n] layers. *)
Definition block_layers (net : WNNetwork.t) (n : nat) : list WaveNetLayer.t :=
  i ← seq 0 n;
  [WaveNetLayer.mk i (WNNetwork.kernel_size net) (WNNetwork.pad_input net)
     (WNNetwork.accum_outputs net)].

(** Each layer shortens its input by (kernel_size - 1) * dilation: the
    lengths after every layer of a stack fed [n] timesteps. *)
Fixpoint lengths_after (layers : list WaveNetLayer.t) (n : Z) : list Z :=
  match layers with
  | [] => []
  | l :: rest => (n - span l) :: lengths_after rest (n - span l)
  end.

(** The value of a finite float of Stdlib's IEEE 754 specification. *)
Definition spec_float_value (f : spec_float) : option Z :=
  match f with
  | S754_zero _ => Some 0
  | S754_finite s m e => Some ((if s then -1 else 1) * (Z.pos m * 2 ^ e))
  | _ => None
  end.

(** The feature [f] with its attribute [k] is the last one, in the order of
    [self.features], whose parameter name is [key]. *)
Definition last_writer {V : Type} (self : DBDataset.t V) (key f k : string) : Prop :=
  exists i : nat,
    DBDataset.features self !! i = Some f /\
    key = DBDataset.param_name f k /\
    is_Some (DBDataset.attrs self f !! k) /\
    forall (j : nat) (f' k' : string),
      (i < j)%nat ->
      DBDataset.features self !! j = Some f' ->
      is_Some (DBDataset.attrs self f' !! k') ->
      DBDataset.param_name f' k' <> key.

(** [None] where [splits] has [None], the subsets in their order elsewhere. *)
Fixpoint interleave {S : Type} (splits : list (option DBDataset.number))
    (sets : list S) : list (option S) :=
  match splits with
  | [] => []
  | None :: rest => None :: interleave rest sets
  | Some _ :: rest =>
      match sets with
      | [] => []
      | s :: sets' => Some s :: interleave rest sets'
      end
  end.

(** ** The timesteps a stack reads

    [forward] with [pad_input == 0] applies
    [nn.Conv1d(..., kernel_size, dilation, stride=1)] without padding: the
    output at position [t] is computed from the inputs at positions
    [t + j * dilation], [0 <= j < kernel_size] (the residual and skip paths
    add the input at one of these positions; with causal padding the same
    offsets are read towards the past). *)
Definition taps (l : WaveNetLayer.t) : list Z :=
  (fun j => Z.of_nat j * WaveNetLayer.dilation l)
    <$> seq 0 (Z.to_nat (WaveNetLayer.kernel_size l)).

(** The input positions that influence position 0 of the output of a stack:
    the first layer reads them for the positions the rest of the stack
    needs. *)
Fixpoint influences (layers : list WaveNetLayer.t) : gset Z :=
  match layers with
  | [] => {[ 0 ]}
  | l :: rest =>
      set_bind (fun p => list_to_set (Z.add p <$> taps l) : gset Z) (influences rest)
  end.

(** ** Data for the examples *)

(** Two features whose attributes give one parameter name, [a_b_c]. *)
Definition colliding_db : DBDataset.t Z :=
  DBDataset.mk ["a"; "a_b"]
    (fun feat => if String.eqb feat "a" then {["b_c" := 1]} else {["c" := 2]}).

(** Two features with one attribute each, [a_x] and [b_x]. *)
Definition plain_db : DBDataset.t Z :=
  DBDataset.mk ["a"; "b"]
    (fun feat => if String.eqb feat "a" then {["x" := 1]} else {["x" := 2]}).


(** A data module with three splits that was prepared, on which
    [setup("fit")] has not run. *)
Definition prepared_module : @DBDataModule.t (Z * Z) :=
  DBDataModule.mk false
    (Some [Some (DBDataset.Float 0.7); Some (DBDataset.Float 0.2);
           Some (DBDataset.Float 0.1)])
    {["batch_size" := DBDataModule.VInt 16; "shuffle" := DBDataModule.VBool true]}
    None None None true false.

(** A data module as [DBDataModule(splits=None, batch_size=16, colour=1)]
    builds it, [batch_size] being a parameter of [DataLoader.__init__] and
    [colour] not. *)
Definition unsplit_module : @DBDataModule.t (Z * Z) :=
  DBDataModule.init {["batch_size"; "shuffle"]} false None
    {["batch_size" := DBDataModule.VInt 16; "colour" := DBDataModule.VInt 1]}.

(** * Proofs *)

Example rf_4 :
  WNNetwork.receptive_field (WNNetwork.mk [4%nat] 2 0 0) = 16.
Proof. reflexivity. Qed.

Example rf_3_2 :
  WNNetwork.receptive_field (WNNetwork.mk [3%nat; 2%nat] 3 0 0) = 35.
Proof. reflexivity. Qed.

Example influences_2_2 :
  influences (WNNetwork.layers_ (WNNetwork.mk [2%nat; 2%nat] 2 0 0))
  = list_to_set [0; 1; 2; 3; 4; 5; 6].
Proof. vm_compute. reflexivity. Qed.

(** One layer of kernel size 2 and dilation 4 reads two timesteps. *)
Example influences_dilated :
  size (influences [WaveNetLayer.mk 2 2 0 0]) = 2%nat.
Proof. vm_compute. reflexivity. Qed.

Section Sums.

Lemma fold_left_add_acc (l : list Z) (a : Z) :
  fold_left Z.add l a = a + fold_left Z.add l 0.
Proof.
  revert a. induction l as [|x l IH]; intros a; simpl; [lia|].
  rewrite (IH (a + x)), (IH (0 + x)). lia.
Qed.

Lemma sum_nil : sum [] = 0.
Proof. reflexivity. Qed.

Lemma sum_cons (x : Z) (l : list Z) : sum (x :: l) = x + sum l.
Proof. unfold sum. simpl. rewrite fold_left_add_acc. lia. Qed.

Lemma sum_app (l1 l2 : list Z) : sum (l1 ++ l2) = sum l1 + sum l2.
Proof.
  induction l1 as [|x l1 IH]; simpl; [rewrite sum_nil; lia|].
  rewrite !sum_cons, IH. lia.
Qed.

End Sums.

Section ReceptiveFieldLoop.

Import WNNetwork.

Lemma rf_fold_suffix (pre suf : list WaveNetLayer.t) (acc : Z) :
  fold_left (rf_step (pre ++ suf)) (zip (seq (length pre) (length suf)) suf) acc
  = acc + Spec.block_end_total (wn_pairs suf).
Proof.
  revert pre acc. induction suf as [|x suf IH]; intros pre acc.
  - simpl. lia.
  - cbn [length seq zip zip_with fold_left].
    replace (pre ++ x :: suf) with ((pre ++ [x]) ++ suf)
      by (rewrite <- app_assoc; reflexivity).
    specialize (IH (pre ++ [x])).
    rewrite length_app in IH. simpl in IH.
    replace (length pre + 1)%nat with (S (length pre)) in IH by lia.
    rewrite IH. clear IH.
    unfold rf_step at 1.
    rewrite !length_app. cbn [length].
    destruct suf as [|y suf].
    + simpl. rewrite (proj2 (Z.eqb_eq _ _)) by lia. lia.
    + cbn [length]. rewrite (proj2 (Z.eqb_neq _ _)) by lia.
      rewrite <- app_assoc. simpl.
      rewrite lookup_app_r by lia.
      replace (length pre + 1 - length pre)%nat with 1%nat by lia.
      simpl. destruct (WaveNetLayer.layer_i y =? 0)%nat; lia.
Qed.


Lemma rf_loop_block_end_total (layers : list WaveNetLayer.t) :
  rf_loop layers = Spec.block_end_total (wn_pairs layers).
Proof.
  unfold rf_loop, enumerate.
  apply (rf_fold_suffix [] layers 0).
Qed.

End ReceptiveFieldLoop.

Section BlockStructure.

Import WNNetwork.

Lemma one_plus_spans_eq (layers : list WaveNetLayer.t) :
  Spec.one_plus_spans layers = 1 + sum (map span layers).
Proof. reflexivity. Qed.

(** On a chained stack the loop's total telescopes. *)
Lemma block_end_total_chained (x : WaveNetLayer.t) (l : list WaveNetLayer.t) :
  chained (x :: l) ->
  Spec.block_end_total (wn_pairs (x :: l))
  = WaveNetLayer.dilation x + sum (map span (x :: l)).
Proof.
  revert x. induction l as [|y l IH]; intros x Hc.
  - simpl. rewrite sum_cons, sum_nil.
    unfold WaveNetLayer.receptive_field, span. lia.
  - destruct Hc as [Hxy Hc]. specialize (IH y Hc).
    change (wn_pairs (x :: y :: l))
      with ((WaveNetLayer.layer_i x, WaveNetLayer.receptive_field x)
              :: wn_pairs (y :: l)).
    change (wn_pairs (y :: l))
      with ((WaveNetLayer.layer_i y, WaveNetLayer.receptive_field y)
              :: wn_pairs l) in *.
    cbn [Spec.block_end_total] in *.
    rewrite IH. rewrite (map_cons span x), sum_cons.
    unfold WaveNetLayer.receptive_field, span at 2.
    destruct Hxy as [H0 | [HS Hk]].
    + rewrite H0. simpl (0 =? 0)%nat. cbv iota.
      unfold WaveNetLayer.dilation. rewrite H0. simpl (_ ^ Z.of_nat 0). lia.
    + rewrite HS. simpl (S _ =? 0)%nat. cbv iota.
      unfold WaveNetLayer.dilation. rewrite HS, Hk.
      rewrite Nat2Z.inj_succ, Z.pow_succ_r by lia. lia.
Qed.

Lemma chained_app (l1 l2 : list WaveNetLayer.t) :
  chained l1 -> chained l2 -> starts_block l2 -> chained (l1 ++ l2).
Proof.
  induction l1 as [|x l1 IH]; intros H1 H2 Hs; [exact H2|].
  destruct l1 as [|y l1].
  - destruct l2 as [|z l2]; [exact I|].
    simpl. split; [left; exact Hs|exact H2].
  - destruct H1 as [Hxy H1]. simpl. split; [exact Hxy|].
    apply IH; assumption.
Qed.

Lemma block_layers_from (net : t) (a n : nat) :
  chained (i ← seq a n;
           [WaveNetLayer.mk i (kernel_size net) (pad_input net) (accum_outputs net)]).
Proof.
  revert a. induction n as [|n IH]; intros a; [exact I|].
  specialize (IH (S a)). simpl. destruct n as [|n]; [exact I|].
  simpl in *. split; [right; split; reflexivity|exact IH].
Qed.

Lemma block_layers_chained (net : t) (n : nat) : chained (block_layers net n).
Proof. apply block_layers_from. Qed.

Lemma block_layers_starts (net : t) (n : nat) : starts_block (block_layers net n).
Proof. destruct n; [exact I|reflexivity]. Qed.

Lemma layers_cons (k a p : Z) (n : nat) (ns : list nat) :
  layers_ (mk (n :: ns) k a p)
  = block_layers (mk ns k a p) n ++ layers_ (mk ns k a p).
Proof. reflexivity. Qed.

Lemma layers_structure (net : t) :
  chained (layers_ net) /\ starts_block (layers_ net).
Proof.
  destruct net as [ns k a p]. induction ns as [|n ns [IHc IHs]].
  - split; exact I.
  - rewrite layers_cons. split.
    + apply chained_app; [apply block_layers_chained|exact IHc|exact IHs].
    + destruct n as [|n]; [exact IHs|reflexivity].
Qed.

(** [receptive_field] of a stack that has a layer. *)
Lemma receptive_field_spans (net : t) :
  layers_ net <> [] ->
  receptive_field net = Spec.one_plus_spans (layers_ net).
Proof.
  intros Hne. unfold receptive_field.
  rewrite rf_loop_block_end_total, one_plus_spans_eq.
  destruct (layers_structure net) as [Hc Hs].
  destruct (layers_ net) as [|x l]; [congruence|].
  rewrite block_end_total_chained by exact Hc.
  unfold WaveNetLayer.dilation. simpl in Hs. rewrite Hs. simpl (_ ^ _). lia.
Qed.

Lemma block_spans (net : t) (n : nat) :
  sum (map span (block_layers net n)) = kernel_size net ^ Z.of_nat n - 1.
Proof.
  unfold block_layers. induction n as [|n IH].
  - reflexivity.
  - rewrite seq_S, bind_app, map_app, sum_app, IH. simpl.
    rewrite sum_cons, sum_nil. unfold span, WaveNetLayer.dilation. simpl.
    rewrite Nat2Z.inj_succ, Z.pow_succ_r by lia. lia.
Qed.

Lemma spans_closed_form (net : t) :
  Spec.one_plus_spans (layers_ net)
  = Spec.closed_form (kernel_size net) (n_layers net).
Proof.
  rewrite one_plus_spans_eq. unfold Spec.closed_form.
  destruct net as [ns k a p]. cbn [kernel_size n_layers].
  induction ns as [|n ns IH].
  - reflexivity.
  - rewrite layers_cons, map_app, sum_app, block_spans.
    cbn [kernel_size map length]. rewrite sum_cons. lia.
Qed.

End BlockStructure.

Section FreqNetLoop.

Import FreqNet.

Lemma but_last_cons2 {A : Type} (x y : A) (l : list A) :
  but_last (x :: y :: l) = x :: but_last (y :: l).
Proof.
  unfold but_last. cbn [length].
  replace (S (S (length l)) - 1)%nat with (S (S (length l) - 1)) by lia.
  reflexivity.
Qed.

Lemma length_but_last {A : Type} (l : list A) :
  length (but_last l) = (length l - 1)%nat.
Proof. unfold but_last. rewrite length_take. lia. Qed.

Lemma block_rf_step_at (pre suf : list FreqLayer) (x y : FreqLayer) (acc : list Z) :
  block_rf_step (pre ++ x :: y :: suf) acc (length pre, x)
  = Ok (if (layer_index y =? 0)%nat
        then acc ++ [layer_receptive_field x - 1] else acc).
Proof.
  unfold block_rf_step. rewrite lookup_app_r by lia.
  replace (length pre + 1 - length pre)%nat with 1%nat by lia.
  cbn [lookup list_lookup]. destruct (layer_index y =? 0)%nat; reflexivity.
Qed.

Lemma block_rf_suffix (pre suf : list FreqLayer) (x : FreqLayer) (acc : list Z) :
  exists block_rf last_layer,
    for_each (block_rf_step (pre ++ x :: suf))
      (zip (seq (length pre) (length (but_last (x :: suf)))) (but_last (x :: suf)))
      acc = Ok block_rf
    /\ last (x :: suf) = Some last_layer
    /\ sum (block_rf ++ [layer_receptive_field last_layer])
       = sum acc + Spec.block_end_total (fn_pairs (x :: suf)).
Proof.
  revert pre x acc. induction suf as [|y suf IH]; intros pre x acc.
  - exists acc, x. split; [reflexivity|]. split; [reflexivity|].
    rewrite sum_app, sum_cons, sum_nil. simpl. lia.
  - rewrite but_last_cons2. cbn [length seq zip zip_with for_each].
    rewrite block_rf_step_at. cbn [mbind result_bind].
    specialize (IH (pre ++ [x]) y).
    rewrite <- app_assoc, length_app in IH. cbn [length app] in IH.
    replace (length pre + 1)%nat with (S (length pre)) in IH by lia.
    change (fn_pairs (x :: y :: suf))
      with ((layer_index x, layer_receptive_field x) :: fn_pairs (y :: suf)).
    change (fn_pairs (y :: suf))
      with ((layer_index y, layer_receptive_field y) :: fn_pairs suf) in *.
    cbn [Spec.block_end_total].
    destruct (layer_index y =? 0)%nat.
    + destruct (IH (acc ++ [layer_receptive_field x - 1]))
        as (brf & ll & Hrun & Hlast & Hsum).
      exists brf, ll. split; [exact Hrun|]. split; [exact Hlast|].
      rewrite Hsum, sum_app, sum_cons, sum_nil.
      cbn [Spec.block_end_total]. lia.
    + destruct (IH acc) as (brf & ll & Hrun & Hlast & Hsum).
      exists brf, ll. split; [exact Hrun|]. split; [exact Hlast|].
      rewrite Hsum. cbn [Spec.block_end_total]. lia.
Qed.

Lemma freqnet_receptive_field_total (layers : list FreqLayer) :
  layers <> [] ->
  receptive_field layers = Ok (Spec.block_end_total (fn_pairs layers)).
Proof.
  intros Hne. destruct layers as [|x suf]; [congruence|].
  destruct (block_rf_suffix [] suf x []) as (brf & ll & Hrun & Hlast & Hsum).
  unfold receptive_field, enumerate.
  cbn [app length] in Hrun. rewrite Hrun.
  cbn [mbind result_bind]. rewrite Hlast, Hsum, sum_nil.
  f_equal; lia.
Qed.

End FreqNetLoop.

Section OutputLengths.

Import WNNetwork.

(** [binary64_round] agrees with the rounding of Stdlib's binary64
    specification, here on integers around the 53-bit boundary and on
    ties. *)
Example binary64_round_agrees :
  forallb
    (fun z =>
       match spec_float_value (binary_normalize 53 1024 z 0 false) with
       | Some v => v =? binary64_round z
       | None => false
       end)
    [2 ^ 53 - 1; 2 ^ 53; 2 ^ 53 + 1; 2 ^ 53 + 2; 2 ^ 53 + 3; 2 ^ 54 + 2;
     2 ^ 54 + 5; 2 ^ 54 + 6; - (2 ^ 53 + 1); 2 ^ 60 + 2 ^ 7;
     2 ^ 60 + 3 * 2 ^ 7; 2 ^ 60 + 2 ^ 7 + 1; 2 ^ 100 - 1; 2 ^ 1023]
  = true.
Proof. vm_compute. reflexivity. Qed.

Lemma binary64_round_exact (z : Z) :
  Z.abs z <= 2 ^ 53 -> binary64_round z = z.
Proof.
  intros Hz. unfold binary64_round.
  destruct (Z.ltb_spec (Z.abs z) (2 ^ 53)) as [Hlt|Hge]; [reflexivity|].
  assert (Habs : Z.abs z = 2 ^ 53) by lia.
  destruct (Z.abs_eq_or_opp z) as [E|E]; rewrite E in Habs.
  - rewrite Habs. vm_compute. reflexivity.
  - assert (Ez : z = - 2 ^ 53) by lia. rewrite Ez. vm_compute. reflexivity.
Qed.

Lemma pow_2_53_lt_1024 : 2 ^ 53 < 2 ^ 1024.
Proof. apply Z.pow_lt_mono_r; lia. Qed.

Lemma output_length_exact (l : WaveNetLayer.t) (m : Z) :
  WaveNetLayer.pad_input l = 0 ->
  1 <= m - span l <= 2 ^ 53 ->
  WaveNetLayer.output_length l m = Ok (m - span l).
Proof.
  intros Hp [Hlo Hhi]. unfold WaveNetLayer.output_length.
  rewrite Hp. cbn [Z.eqb negb].
  pose proof pow_2_53_lt_1024 as Hbig.
  set (numerator := m - WaveNetLayer.dilation l * (WaveNetLayer.kernel_size l - 1) - 1).
  assert (Hn : numerator = m - span l - 1) by (unfold numerator, span; lia).
  unfold true_div_1. rewrite binary64_round_exact by lia.
  destruct (Z.leb_spec (2 ^ 1024) (Z.abs numerator)) as [Hov|_]; [lia|].
  cbn [mbind result_bind]. unfold floor_one_plus.
  rewrite binary64_round_exact by lia.
  destruct (Z.leb_spec (2 ^ 1024) (Z.abs (1 + numerator))) as [Hov|_]; [lia|].
  f_equal. lia.
Qed.

Lemma all_output_lengths_from_exact (layers : list WaveNetLayer.t)
    (m : Z) (acc : list Z) :
  Forall (fun l => WaveNetLayer.pad_input l = 0 /\ 0 <= span l) layers ->
  m <= 2 ^ 53 ->
  1 <= m - sum (map span layers) ->
  for_each
    (fun '(out_length, lengths) layer =>
       out_length' ← WaveNetLayer.output_length layer out_length;
       Ok (out_length', lengths ++ [out_length']))
    layers (m, acc)
  = Ok (m - sum (map span layers), acc ++ lengths_after layers m).
Proof.
  revert m acc. induction layers as [|l layers IH]; intros m acc Hall Hm Hlo.
  - simpl. rewrite sum_nil, app_nil_r. f_equal. f_equal. lia.
  - apply Forall_cons in Hall as [[Hp Hs] Hall].
    assert (Hrest : 0 <= sum (map span layers)).
    { clear -Hall. induction Hall as [|x xs [_ Hx] _ IHx]; simpl.
      - rewrite sum_nil. lia.
      - rewrite sum_cons. lia. }
    rewrite map_cons, sum_cons in *.
    cbn [for_each]. rewrite output_length_exact by (try exact Hp; lia).
    cbn [mbind result_bind]. rewrite IH by (try exact Hall; lia).
    cbn [lengths_after]. rewrite <- app_assoc. cbn [app].
    f_equal. f_equal. lia.
Qed.

Lemma spans_nonneg (layers : list WaveNetLayer.t) :
  Forall (fun l => WaveNetLayer.pad_input l = 0 /\ 0 <= span l) layers ->
  0 <= sum (map span layers).
Proof.
  induction 1 as [|x xs [_ Hx] _ IHx]; simpl.
  - rewrite sum_nil. lia.
  - rewrite sum_cons. lia.
Qed.

(** Along the stack, every layer is fed the length its predecessor returned
    and shortens it by its span. *)
Lemma output_length_along (layers : list WaveNetLayer.t) (n : Z) :
  Forall (fun l => WaveNetLayer.pad_input l = 0 /\ 0 <= span l) layers ->
  n <= 2 ^ 53 ->
  1 <= n - sum (map span layers) ->
  forall (i : nat) (l : WaveNetLayer.t) (m : Z),
    layers !! i = Some l ->
    (n :: lengths_after layers n) !! i = Some m ->
    WaveNetLayer.output_length l m = Ok (m - span l).
Proof.
  revert n. induction layers as [|x layers IH]; intros n Hall Hn Hlo i l m Hl Hm.
  - rewrite lookup_nil in Hl. discriminate.
  - pose proof Hall as Hall'. apply Forall_cons in Hall' as [[Hp Hs] Hrest].
    pose proof (spans_nonneg layers Hrest) as Hnn.
    rewrite map_cons, sum_cons in Hlo.
    destruct i as [|i].
    + simpl in Hl, Hm. injection Hl as <-. injection Hm as <-.
      apply output_length_exact; [exact Hp|lia].
    + simpl in Hl. cbn [lengths_after] in Hm. simpl in Hm.
      apply (IH (n - span x) Hrest ltac:(lia) ltac:(lia) i l m Hl Hm).
Qed.

Lemma last_lengths_after (layers : list WaveNetLayer.t) (n : Z) :
  layers <> [] ->
  last (lengths_after layers n) = Some (n - sum (map span layers)).
Proof.
  revert n. induction layers as [|l layers IH]; intros n Hne; [congruence|].
  destruct layers as [|l' layers].
  - simpl. rewrite sum_cons, sum_nil. f_equal. lia.
  - cbn [lengths_after] in *. rewrite last_cons.
    rewrite IH by congruence. rewrite (map_cons span l), (sum_cons (span l)).
    f_equal. lia.
Qed.

Lemma layers_fields (net : t) :
  Forall (fun l => WaveNetLayer.pad_input l = pad_input net /\
                   WaveNetLayer.kernel_size l = kernel_size net)
    (layers_ net).
Proof.
  destruct net as [ns k a p]. cbn [pad_input kernel_size].
  induction ns as [|n ns IH]; [constructor|].
  rewrite layers_cons. apply Forall_app. split; [|exact IH].
  unfold block_layers. generalize 0%nat.
  induction n as [|n IHn]; intros s; [constructor|].
  simpl. constructor; [split; reflexivity|apply IHn].
Qed.

Lemma span_nonneg (l : WaveNetLayer.t) :
  1 <= WaveNetLayer.kernel_size l -> 0 <= span l.
Proof.
  intros Hk. unfold span, WaveNetLayer.dilation.
  apply Z.mul_nonneg_nonneg; [lia|]. apply Z.pow_nonneg. lia.
Qed.

End OutputLengths.

Section HParams.

Import DBDataset.
Context {V : Type}.

Lemma param_name_inj (feat k1 k2 : string) :
  param_name feat k1 = param_name feat k2 -> k1 = k2.
Proof.
  unfold param_name. intros H.
  exact (String.app_inj (String.append feat "_") k1 k2 H).
Qed.

Lemma fold_left_snoc {A B : Type} (f : A -> B -> A) (l : list B) (b : B) (a : A) :
  fold_left f (l ++ [b]) a = f (fold_left f l a) b.
Proof. rewrite fold_left_app. reflexivity. Qed.

(** The dictionary comprehension over a list of items with distinct keys. *)
Lemma comprehension_lookup (feat : string) (items : list (string * V))
    (key : string) (v : V) :
  NoDup items.*1 ->
  fold_left (fun d kv => <[param_name feat (fst kv) := snd kv]> d) items
    (∅ : gmap string V) !! key = Some v
  <-> exists k, key = param_name feat k /\ (k, v) ∈ items.
Proof.
  induction items as [|[k0 v0] items IH] using rev_ind; intros Hnd.
  - simpl. rewrite lookup_empty. split; [discriminate|].
    intros (k & _ & Hin). inversion Hin.
  - rewrite fmap_app in Hnd. apply NoDup_app in Hnd as (Hnd & Hfresh & _).
    rewrite fold_left_snoc. cbn [fst snd].
    rewrite lookup_insert_Some, (IH Hnd). split.
    + intros [[Hk Hv] | [Hk (k & Hkey & Hin)]].
      * exists k0. subst. split; [reflexivity|]. apply elem_of_app. right.
        apply list_elem_of_singleton. reflexivity.
      * exists k. split; [exact Hkey|]. apply elem_of_app. left. exact Hin.
    + intros (k & Hkey & Hin). apply elem_of_app in Hin as [Hin | Hin].
      * right. split.
        -- intros Heq. subst key. apply param_name_inj in Heq. subst k0.
           apply (Hfresh k).
           ++ apply list_elem_of_fmap. exists (k, v). split; [reflexivity|exact Hin].
           ++ simpl. apply list_elem_of_singleton. reflexivity.
        -- exists k. split; [exact Hkey|exact Hin].
      * apply list_elem_of_singleton in Hin. injection Hin as -> ->.
        left. split; [symmetry; exact Hkey|reflexivity].
Qed.

Lemma this_feat_lookup (feat : string) (a : gmap string V) (key : string) (v : V) :
  this_feat feat a !! key = Some v
  <-> exists k, key = param_name feat k /\ a !! k = Some v.
Proof.
  unfold this_feat. rewrite comprehension_lookup by apply NoDup_fst_map_to_list.
  split; intros (k & Hkey & H); exists k; (split; [exact Hkey|]).
  - apply elem_of_map_to_list in H. exact H.
  - apply elem_of_map_to_list. exact H.
Qed.

Lemma this_feat_lookup_None (feat : string) (a : gmap string V) (key : string) :
  this_feat feat a !! key = None
  <-> forall k, is_Some (a !! k) -> param_name feat k <> key.
Proof.
  split.
  - intros Hnone k [v Hv] Heq.
    assert (this_feat feat a !! key = Some v) as Hs
      by (apply this_feat_lookup; exists k; split; [symmetry; exact Heq|exact Hv]).
    congruence.
  - intros Hall. destruct (this_feat feat a !! key) as [v|] eqn:E; [|reflexivity].
    apply this_feat_lookup in E as (k & Hkey & Hv).
    exfalso. apply (Hall k); [eexists; exact Hv|symmetry; exact Hkey].
Qed.

(** The loop of [hparams] over a list of features. *)
Lemma hparams_loop_lookup (att : string -> gmap string V) (feats : list string)
    (key : string) (v : V) :
  fold_left (fun params feat => update params (this_feat feat (att feat)))
    feats ∅ !! key = Some v
  <-> exists (i : nat) (f : string),
        feats !! i = Some f /\
        this_feat f (att f) !! key = Some v /\
        forall (j : nat) (f' : string),
          (i < j)%nat -> feats !! j = Some f' ->
          this_feat f' (att f') !! key = None.
Proof.
  induction feats as [|f0 feats IH] using rev_ind.
  - simpl. rewrite lookup_empty. split; [discriminate|].
    intros (i & f & Hi & _). rewrite lookup_nil in Hi. discriminate.
  - rewrite fold_left_snoc. unfold update at 1.
    rewrite lookup_union_Some_raw, IH. split.
    + intros [Hnew | [Hnone (i & f & Hi & Hv & Hlater)]].
      * exists (length feats), f0. split; [|split; [exact Hnew|]].
        -- rewrite lookup_app_r by lia. rewrite Nat.sub_diag. reflexivity.
        -- intros j f' Hlt Hj. apply lookup_lt_Some in Hj.
           rewrite length_app in Hj. simpl in Hj. lia.
      * exists i, f. split; [|split; [exact Hv|]].
        -- rewrite lookup_app_l by (apply lookup_lt_Some in Hi; exact Hi).
           exact Hi.
        -- intros j f' Hlt Hj.
           destruct (decide (j < length feats)%nat) as [Hjl|Hjl].
           ++ rewrite lookup_app_l in Hj by exact Hjl. exact (Hlater j f' Hlt Hj).
           ++ rewrite lookup_app_r in Hj by lia.
              destruct (j - length feats)%nat; simpl in Hj; [|discriminate].
              injection Hj as <-. exact Hnone.
    + intros (i & f & Hi & Hv & Hlater).
      destruct (decide (i < length feats)%nat) as [Hil|Hil].
      * right. split.
        -- apply (Hlater (length feats) f0 Hil).
           rewrite lookup_app_r by lia. rewrite Nat.sub_diag. reflexivity.
        -- exists i, f. rewrite lookup_app_l in Hi by exact Hil.
           split; [exact Hi|split; [exact Hv|]].
           intros j f' Hlt Hj. apply (Hlater j f' Hlt).
           rewrite lookup_app_l by (apply lookup_lt_Some in Hj; exact Hj). exact Hj.
      * left. rewrite lookup_app_r in Hi by lia.
        destruct (i - length feats)%nat; simpl in Hi; [|discriminate].
        injection Hi as <-. exact Hv.
Qed.

End HParams.

Section SplitPositions.

Import DBDataset.
Context {Subset : Type}.

Lemma none_indices_from (a : nat) (l : list (option number)) (i : nat) :
  i ∈ (fst <$> filter (fun ix => is_None (snd ix) = true) (zip (seq a (length l)) l))
  <-> (a <= i)%nat /\ l !! (i - a)%nat = Some None.
Proof.
  revert a. induction l as [|x l IH]; intros a.
  - simpl. split; [intros H; inversion H|intros [_ H]; discriminate].
  - cbn [length seq zip zip_with]. rewrite filter_cons. cbn [snd].
    assert (Hrest : forall j, (S a <= j)%nat ->
              l !! (j - S a)%nat = (x :: l) !! (j - a)%nat).
    { intros j Hj. replace (j - a)%nat with (S (j - S a)) by lia. reflexivity. }
    destruct x as [n|]; cbn [is_None].
    + rewrite decide_False by discriminate. rewrite IH. split.
      * intros [Hle Hl]. split; [lia|]. rewrite <- Hrest by lia. exact Hl.
      * intros [Hle Hl]. destruct (decide (i = a)) as [->|Hne].
        -- rewrite Nat.sub_diag in Hl. discriminate.
        -- split; [lia|]. rewrite Hrest by lia. exact Hl.
    + rewrite decide_True by reflexivity. rewrite fmap_cons. cbn [fst].
      rewrite elem_of_cons, IH. split.
      * intros [-> | [Hle Hl]].
        -- split; [lia|]. rewrite Nat.sub_diag. reflexivity.
        -- split; [lia|]. rewrite <- Hrest by lia. exact Hl.
      * intros [Hle Hl]. destruct (decide (i = a)) as [->|Hne]; [left; reflexivity|].
        right. split; [lia|]. rewrite Hrest by lia. exact Hl.
Qed.

Lemma none_indices_spec (splits : list (option number)) (i : nat) :
  i ∈ none_indices splits <-> splits !! i = Some None.
Proof.
  unfold none_indices. rewrite none_indices_from, Nat.sub_0_r.
  split; [intros [_ H]; exact H|intros H; split; [lia|exact H]].
Qed.

Lemma length_none_from (a : nat) (l : list (option number)) :
  (length (fst <$> filter (fun ix => is_None (snd ix) = true)
                     (zip (seq a (length l)) l))
   + length (present l) = length l)%nat.
Proof.
  revert a. induction l as [|x l IH]; intros a; [reflexivity|].
  cbn [length seq zip zip_with]. rewrite filter_cons. cbn [snd].
  specialize (IH (S a)). unfold present in *.
  destruct x as [n|]; cbn [is_None omap list_omap id].
  - rewrite decide_False by discriminate. cbn [length]. lia.
  - rewrite decide_True by reflexivity. rewrite fmap_cons. cbn [length]. lia.
Qed.

Lemma length_none_present (splits : list (option number)) :
  (length (none_indices splits) + length (present splits) = length splits)%nat.
Proof. apply length_none_from. Qed.

Lemma no_None_none_indices (splits : list (option number)) :
  existsb is_None splits = false -> none_indices splits = [].
Proof.
  intros Hex. destruct (none_indices splits) as [|i l] eqn:E; [reflexivity|].
  assert (Hin : i ∈ none_indices splits) by (rewrite E; left).
  apply none_indices_spec in Hin.
  assert (existsb is_None splits = true); [|congruence].
  apply existsb_exists. exists None. split; [|reflexivity].
  apply list_elem_of_In. eapply list_elem_of_lookup_2. exact Hin.
Qed.

(** The indices of [None] that [split] keeps are those of [none_indices],
    with or without a [None] in [splits]. *)
Lemma nones_eq (splits : list (option number)) :
  (if existsb is_None splits then none_indices splits else []) = none_indices splits.
Proof.
  destruct (existsb is_None splits) eqn:E; [reflexivity|].
  symmetry. apply no_None_none_indices. exact E.
Qed.

Lemma any_index_false (splits : list (option number)) :
  first_is_None splits = false ->
  any_index (none_indices splits) = false ->
  none_indices splits = [].
Proof.
  intros Hfirst Hany. destruct (none_indices splits) as [|i l] eqn:E; [reflexivity|].
  assert (Hin : i ∈ none_indices splits) by (rewrite E; left).
  apply none_indices_spec in Hin.
  unfold any_index in Hany. simpl in Hany.
  apply orb_false_iff in Hany as [Hi _].
  apply negb_false_iff, Nat.eqb_eq in Hi. subst i.
  destruct splits as [|[n|] splits]; simpl in *; congruence.
Qed.

Lemma reinsert_interleave (nones : list nat) (pre suf : list (option number))
    (sets : list Subset) :
  (forall i, i ∈ nones <-> (pre ++ suf) !! i = Some None) ->
  length sets = length (present suf) ->
  reinsert nones (seq (length pre) (length suf)) sets = Ok (interleave suf sets).
Proof.
  intros Hnones. revert pre sets Hnones.
  induction suf as [|x suf IH]; intros pre sets Hnones Hlen; [reflexivity|].
  cbn [length seq reinsert].
  assert (Hx : (pre ++ x :: suf) !! length pre = Some x).
  { rewrite lookup_app_r by lia. rewrite Nat.sub_diag. reflexivity. }
  specialize (IH (pre ++ [x])).
  rewrite length_app in IH. cbn [length] in IH.
  replace (length pre + 1)%nat with (S (length pre)) in IH by lia.
  rewrite <- app_assoc in IH. cbn [app] in IH.
  destruct x as [n|]; unfold present in Hlen; cbn [omap list_omap id] in Hlen.
  - rewrite bool_decide_eq_false_2
      by (rewrite Hnones, Hx; discriminate).
    destruct sets as [|s sets]; [discriminate|].
    rewrite IH by (try exact Hnones; simpl in Hlen; unfold present; lia).
    reflexivity.
  - rewrite bool_decide_eq_true_2 by (rewrite Hnones, Hx; reflexivity).
    rewrite IH by (try exact Hnones; exact Hlen).
    reflexivity.
Qed.

Lemma interleave_props (splits : list (option number)) (sets : list Subset) :
  length sets = length (present splits) ->
  length (interleave splits sets) = length splits
  /\ (forall i, interleave splits sets !! i = Some None <-> splits !! i = Some None)
  /\ omap id (interleave splits sets) = sets.
Proof.
  revert sets. induction splits as [|x splits IH]; intros sets Hlen.
  - destruct sets; [|discriminate]. split; [reflexivity|].
    split; [|reflexivity]. intros i. cbn [interleave].
    rewrite !lookup_nil. split; discriminate.
  - unfold present in Hlen. destruct x as [n|]; cbn [omap list_omap id] in Hlen.
    + destruct sets as [|s sets]; [discriminate|].
      destruct (IH sets) as (Hl & Hpos & Hsets); [simpl in Hlen; unfold present; lia|].
      cbn [interleave]. split; [simpl; lia|]. split.
      * intros [|i]; simpl; [split; discriminate|apply Hpos].
      * cbn [omap list_omap id]. rewrite Hsets. reflexivity.
    + destruct (IH sets Hlen) as (Hl & Hpos & Hsets).
      cbn [interleave]. split; [simpl; lia|]. split.
      * intros [|i]; simpl; [split; reflexivity|apply Hpos].
      * cbn [omap list_omap id]. exact Hsets.
Qed.

Lemma interleave_all_present (splits : list (option number)) (sets : list Subset) :
  none_indices splits = [] ->
  length sets = length (present splits) ->
  interleave splits sets = map Some sets.
Proof.
  intros Hnone. assert (Hall : forall i, splits !! i <> Some None).
  { intros i Hi. apply none_indices_spec in Hi. rewrite Hnone in Hi. inversion Hi. }
  clear Hnone. revert sets. induction splits as [|x splits IH]; intros sets Hlen.
  - destruct sets; [reflexivity|discriminate].
  - destruct x as [n|]; [|exfalso; exact (Hall 0%nat eq_refl)].
    unfold present in Hlen. cbn [omap list_omap id] in Hlen.
    destruct sets as [|s sets]; [discriminate|].
    cbn [interleave map]. f_equal. apply IH.
    + intros i. exact (Hall (S i)).
    + simpl in Hlen. unfold present. lia.
Qed.

(** Lines 93-95 put the subsets back around the [None]s. *)
Lemma place_interleave (splits : list (option number)) (sets : list Subset) :
  first_is_None splits = false ->
  length sets = length (present splits) ->
  place (none_indices splits) sets = Ok (interleave splits sets).
Proof.
  intros Hfirst Hlen. unfold place.
  destruct (any_index (none_indices splits)) eqn:Hany.
  - replace (length sets + length (none_indices splits))%nat with (length splits)
      by (rewrite Hlen; pose proof (length_none_present splits); lia).
    apply (reinsert_interleave (none_indices splits) [] splits sets);
      [intros i; apply none_indices_spec|exact Hlen].
  - rewrite interleave_all_present;
      [reflexivity|apply any_index_false; assumption|exact Hlen].
Qed.

End SplitPositions.

Section Comprehensions.

Context {A B : Type}.

Lemma map_result_Forall2 (f : A -> result B) (l : list A) (bs : list B) :
  map_result f l = Ok bs <-> Forall2 (fun a b => f a = Ok b) l bs.
Proof.
  revert bs. induction l as [|a l IH]; intros bs; simpl.
  - split.
    + intros H. injection H as <-. constructor.
    + intros H. inversion H. reflexivity.
  - split.
    + destruct (f a) as [b|e] eqn:Ea; [|discriminate]. cbn [mbind result_bind].
      destruct (map_result f l) as [bs'|e]; [|discriminate].
      cbn [mbind result_bind]. intros H. injection H as <-.
      constructor; [exact Ea|]. apply IH. reflexivity.
    + intros H. inversion H as [|a' b l' bs' Hab Hrest]; subst.
      rewrite Hab. cbn [mbind result_bind].
      apply IH in Hrest. rewrite Hrest. reflexivity.
Qed.

Lemma map_result_length (f : A -> result B) (l : list A) (bs : list B) :
  map_result f l = Ok bs -> length bs = length l.
Proof.
  intros H. apply map_result_Forall2 in H.
  symmetry. exact (Forall2_length _ _ _ H).
Qed.

(** An exception of a comprehension is the exception of one element. *)
Lemma map_result_Raise (f : A -> result B) (l : list A) (e : exn) :
  map_result f l = Raise e -> exists a, a ∈ l /\ f a = Raise e.
Proof.
  induction l as [|a l IH]; simpl; [discriminate|].
  destruct (f a) as [b|e'] eqn:Ea; cbn [mbind result_bind].
  - destruct (map_result f l) as [bs|e'] eqn:El; cbn [mbind result_bind];
      [discriminate|].
    intros H. injection H as ->. destruct (IH eq_refl) as (a' & Hin & Ha').
    exists a'. split; [right; exact Hin|exact Ha'].
  - intros H. injection H as ->. exists a. split; [left|exact Ea].
Qed.

End Comprehensions.

Section SplitLengths.

Import DBDataset.

Lemma but_last_map {A B : Type} (f : A -> B) (l : list A) :
  but_last (map f l) = map f (but_last l).
Proof.
  unfold but_last. rewrite length_map.
  change (map f) with (fmap (M:=list) f). rewrite fmap_take. reflexivity.
Qed.

Lemma the_floats_all (l : list number) :
  forallb is_float l = true -> length (the_floats l) = length l.
Proof.
  induction l as [|[x|n] l IH]; simpl; intros H; [reflexivity| |discriminate].
  unfold the_floats in *. cbn [omap list_omap]. simpl. rewrite IH by exact H.
  reflexivity.
Qed.

Lemma the_floats_map (xs : list float) :
  the_floats (map Float xs) = xs /\ forallb is_float (map Float xs) = true.
Proof.
  induction xs as [|x xs [IH1 IH2]]; [split; reflexivity|].
  split; [|exact IH2]. unfold the_floats in *. cbn [map omap list_omap].
  rewrite IH1. reflexivity.
Qed.

(** [normalize] fails only on a zero sum. *)
Lemma normalize_Raise (xs : list float) (e : exn) :
  normalize xs = Raise e -> e = ZeroDivisionError.
Proof.
  intros H. apply map_result_Raise in H as (x & _ & Hx).
  unfold PyFloat.truediv in Hx.
  destruct (PyFloat.sum xs =? 0)%float; congruence.
Qed.

Lemma normalize_Ok (xs : list float) :
  (PyFloat.sum xs =? 0)%float = false ->
  normalize xs = Ok (map (fun x => (x / PyFloat.sum xs)%float) xs).
Proof.
  intros Hs. unfold normalize. apply map_result_Forall2.
  revert Hs. generalize (PyFloat.sum xs) at 1 2 3. intros s Hs.
  induction xs as [|x xs IH]; simpl; constructor; [|exact IH].
  unfold PyFloat.truediv. rewrite Hs. reflexivity.
Qed.

Lemma float_lengths_length (N : Z) (xs : list float) (cs : list Z) :
  xs <> [] -> float_lengths N xs = Ok cs -> length cs = length xs.
Proof.
  intros Hne. unfold float_lengths.
  destruct (normalize xs) as [ps|e] eqn:En; [|discriminate].
  cbn [mbind result_bind].
  destruct (as_ints N ps) as [counts|e] eqn:Ea; [|discriminate].
  cbn [mbind result_bind].
  destruct (N - sum counts =? 0); [discriminate|].
  intros H. injection H as <-.
  apply map_result_length in En, Ea.
  rewrite length_but_last in Ea. rewrite length_app, Ea, En. cbn [length].
  destruct xs; [congruence|]. simpl. lia.
Qed.

Lemma lengths_length (N : Z) (somes ls : list number) :
  somes <> [] -> lengths N somes = Ok ls -> length ls = length somes.
Proof.
  intros Hne. unfold lengths.
  destruct (forallb is_float somes) eqn:Hall.
  - destruct (float_lengths N (the_floats somes)) as [cs|e] eqn:Ef; [|discriminate].
    cbn [mbind result_bind]. intros H. injection H as <-.
    rewrite length_map. apply float_lengths_length in Ef.
    + rewrite Ef. apply the_floats_all. exact Hall.
    + intros Hnil. apply (f_equal length) in Hnil.
      rewrite the_floats_all in Hnil by exact Hall.
      destruct somes; [congruence|discriminate].
  - intros H. injection H as <-. reflexivity.
Qed.

(** Lines 93-94 raise nothing but the [IndexError] of [pop]. *)
Lemma reinsert_Raise {Subset : Type} (nones idx : list nat) (sets : list Subset)
    (e : exn) :
  reinsert nones idx sets = Raise e -> e = IndexError.
Proof.
  revert sets. induction idx as [|i idx IH]; intros sets; simpl; [discriminate|].
  destruct (bool_decide (i ∈ nones)).
  - destruct (reinsert nones idx sets) eqn:E; cbn [mbind result_bind];
      [discriminate|].
    intros H. injection H as ->. exact (IH sets E).
  - destruct sets as [|s sets]; [congruence|].
    destruct (reinsert nones idx sets) eqn:E; cbn [mbind result_bind];
      [discriminate|].
    intros H. injection H as ->. exact (IH sets E).
Qed.

Lemma place_Raise {Subset : Type} (nones : list nat) (sets : list Subset) (e : exn) :
  place nones sets = Raise e -> e = IndexError.
Proof.
  unfold place. destruct (any_index nones); [apply reinsert_Raise|discriminate].
Qed.

(** [split] once the train-set's entry is known to be present. *)
Lemma split_present {Subset : Type} (N : Z)
    (random_split : list number -> result (list Subset))
    (splits : list (option number)) :
  first_is_None splits = false ->
  split N random_split splits
  = (ls ← lengths N (present splits);
     sets ← random_split ls;
     place (none_indices splits) sets).
Proof.
  intros Hfirst. unfold split. rewrite Hfirst, andb_false_r, nones_eq.
  reflexivity.
Qed.

Lemma split_first_None {Subset : Type} (N : Z)
    (random_split : list number -> result (list Subset))
    (splits : list (option number)) :
  first_is_None splits = true ->
  split N random_split splits = Raise (ValueError train_none_msg).
Proof.
  intros Hfirst. unfold split. rewrite Hfirst.
  destruct splits as [|[n|] splits]; simpl in *; congruence.
Qed.

End SplitLengths.

Section Influence.

Import WNNetwork.

Lemma elem_of_taps (l : WaveNetLayer.t) (t : Z) :
  t ∈ taps l
  <-> exists j, 0 <= j < WaveNetLayer.kernel_size l /\ t = j * WaveNetLayer.dilation l.
Proof.
  unfold taps. rewrite list_elem_of_fmap. split.
  - intros (j & -> & Hj). apply elem_of_seq in Hj. exists (Z.of_nat j).
    split; [lia|reflexivity].
  - intros (j & Hj & ->). exists (Z.to_nat j). split.
    + rewrite Z2Nat.id by lia. reflexivity.
    + apply elem_of_seq. lia.
Qed.

Lemma elem_of_influences_cons (l : WaveNetLayer.t) (rest : list WaveNetLayer.t) (x : Z) :
  x ∈ influences (l :: rest)
  <-> exists p t, p ∈ influences rest /\ t ∈ taps l /\ x = p + t.
Proof.
  cbn [influences]. rewrite elem_of_set_bind. split.
  - intros (p & Hp & Hx). apply elem_of_list_to_set, list_elem_of_fmap in Hx
      as (t & -> & Ht). exists p, t. auto.
  - intros (p & t & Hp & Ht & ->). exists p. split; [exact Hp|].
    apply elem_of_list_to_set, list_elem_of_fmap. exists t. auto.
Qed.

(** The positions of a stack are the sums of a position of each part. *)
Lemma elem_of_influences_app (l1 l2 : list WaveNetLayer.t) (x : Z) :
  x ∈ influences (l1 ++ l2)
  <-> exists a b, a ∈ influences l1 /\ b ∈ influences l2 /\ x = a + b.
Proof.
  revert x. induction l1 as [|l l1 IH]; intros x.
  - cbn [app influences]. split.
    + intros Hx. exists 0, x. split; [apply elem_of_singleton; reflexivity|].
      split; [exact Hx|lia].
    + intros (a & b & Ha & Hb & ->). apply elem_of_singleton in Ha. subst a.
      exact Hb.
  - cbn [app]. rewrite elem_of_influences_cons. split.
    + intros (p & t & Hp & Ht & ->). apply IH in Hp as (a & b & Ha & Hb & ->).
      exists (a + t), b. split; [|split; [exact Hb|lia]].
      apply elem_of_influences_cons. exists a, t. auto.
    + intros (a & b & Ha & Hb & ->).
      apply elem_of_influences_cons in Ha as (p & t & Hp & Ht & ->).
      exists (p + b), t. split; [|split; [exact Ht|lia]].
      apply IH. exists p, b. auto.
Qed.

(** Sliding the interval [0..S] by the taps of a layer whose dilation is at
    most [S + 1] leaves no gap. *)
Lemma interval_plus_taps (S d k x : Z) :
  0 <= S -> 1 <= d <= S + 1 -> 1 <= k ->
  (exists p j, 0 <= p <= S /\ 0 <= j < k /\ x = p + j * d)
  <-> 0 <= x <= S + (k - 1) * d.
Proof.
  intros HS Hd Hk. split.
  - intros (p & j & Hp & Hj & ->). nia.
  - intros Hx. destruct (Z_lt_le_dec (x / d) k) as [Hq|Hq].
    + exists (x mod d), (x / d). split; [|split].
      * pose proof (Z.mod_pos_bound x d). lia.
      * split; [apply Z.div_pos; lia|exact Hq].
      * rewrite (Z.div_mod x d) at 1 by lia. lia.
    + exists (x - (k - 1) * d), (k - 1). split; [|split; lia].
      assert (k * d <= x).
      { pose proof (Z.mul_div_le x d). nia. }
      nia.
Qed.

Lemma chained_snoc (pre : list WaveNetLayer.t) (l : WaveNetLayer.t) :
  chained (pre ++ [l]) ->
  chained pre
  /\ match last pre with
     | None => True
     | Some prev =>
         WaveNetLayer.layer_i l = 0%nat
         \/ (WaveNetLayer.layer_i l = S (WaveNetLayer.layer_i prev)
             /\ WaveNetLayer.kernel_size l = WaveNetLayer.kernel_size prev)
     end.
Proof.
  induction pre as [|x pre IH]; [intros _; split; exact I|].
  destruct pre as [|y pre].
  - simpl. intros [H _]. split; [exact I|exact H].
  - intros [Hxy Hc]. destruct (IH Hc) as [Hpre Hlast].
    split; [split; [exact Hxy|exact Hpre]|]. exact Hlast.
Qed.

Lemma starts_block_snoc (pre : list WaveNetLayer.t) (l : WaveNetLayer.t) :
  starts_block (pre ++ [l]) ->
  starts_block pre /\ (pre = [] -> WaveNetLayer.layer_i l = 0%nat).
Proof.
  destruct pre as [|x pre]; simpl; intros H; split; auto; discriminate.
Qed.

Lemma dilation_pos (l : WaveNetLayer.t) :
  1 <= WaveNetLayer.kernel_size l -> 1 <= WaveNetLayer.dilation l.
Proof.
  intros Hk. unfold WaveNetLayer.dilation.
  assert (0 < WaveNetLayer.kernel_size l ^ Z.of_nat (WaveNetLayer.layer_i l))
    by (apply Z.pow_pos_nonneg; lia).
  lia.
Qed.

(** The positions a chained stack reads form the interval from 0 to the sum
    of its spans, which reaches the receptive field of its last layer. *)
Lemma influences_interval (k : Z) (layers : list WaveNetLayer.t) :
  1 <= k ->
  Forall (fun l => WaveNetLayer.kernel_size l = k) layers ->
  chained layers -> starts_block layers ->
  0 <= sum (map span layers)
  /\ (forall x, x ∈ influences layers <-> 0 <= x <= sum (map span layers))
  /\ match last layers with
     | None => True
     | Some l => WaveNetLayer.receptive_field l <= sum (map span layers) + 1
     end.
Proof.
  intros Hk. induction layers as [|l pre IH] using rev_ind; intros Hall Hc Hs.
  - cbn [map]. rewrite sum_nil. split; [lia|]. split; [|exact I].
    intros x. cbn [influences]. rewrite elem_of_singleton. lia.
  - apply Forall_app in Hall as [Hall Hl].
    rewrite Forall_singleton in Hl.
    apply chained_snoc in Hc as [Hc Hprev].
    apply starts_block_snoc in Hs as [Hs Hfirst].
    destruct (IH Hall Hc Hs) as (HS & Hint & Hlast). clear IH.
    rewrite map_app, sum_app. cbn [map]. rewrite sum_cons, sum_nil, last_snoc.
    set (total := sum (map span pre)) in *.
    assert (Hd1 : 1 <= WaveNetLayer.dilation l) by (apply dilation_pos; lia).
    assert (Hd : WaveNetLayer.dilation l <= total + 1).
    { destruct (last pre) as [prev|] eqn:Elast.
      - destruct Hprev as [H0 | [HS' Hkk]].
        + unfold WaveNetLayer.dilation. rewrite H0. simpl. lia.
        + unfold WaveNetLayer.receptive_field in Hlast.
          unfold WaveNetLayer.dilation in *. rewrite HS', Hkk.
          rewrite Nat2Z.inj_succ, Z.pow_succ_r by lia. exact Hlast.
      - apply last_None in Elast. specialize (Hfirst Elast).
        unfold WaveNetLayer.dilation. rewrite Hfirst. simpl. lia. }
    assert (Hspan : span l = (k - 1) * WaveNetLayer.dilation l)
      by (unfold span; rewrite Hl; reflexivity).
    split; [nia|]. split.
    + intros x. rewrite elem_of_influences_app, Hspan, Z.add_0_r.
      rewrite <- (interval_plus_taps total (WaveNetLayer.dilation l) k x) by lia.
      split.
      * intros (a & b & Ha & Hb & ->). apply Hint in Ha.
        apply elem_of_influences_cons in Hb as (p & t & Hp & Ht & ->).
        cbn [influences] in Hp. apply elem_of_singleton in Hp. subst p.
        apply elem_of_taps in Ht as (j & Hj & ->). rewrite Hl in Hj.
        exists a, j. split; [exact Ha|]. split; [exact Hj|lia].
      * intros (p & j & Hp & Hj & ->).
        exists p, (j * WaveNetLayer.dilation l). split; [apply Hint; exact Hp|].
        split; [|reflexivity]. apply elem_of_influences_cons.
        exists 0, (j * WaveNetLayer.dilation l).
        split; [cbn [influences]; apply elem_of_singleton; reflexivity|].
        split; [|lia]. apply elem_of_taps. exists j. rewrite Hl. auto.
    + unfold WaveNetLayer.receptive_field. rewrite Hl, Hspan, Z.add_0_r. nia.
Qed.

Lemma size_interval (X : gset Z) (S : Z) :
  0 <= S -> (forall x, x ∈ X <-> 0 <= x <= S) -> Z.of_nat (size X) = S + 1.
Proof.
  intros HS HX.
  assert (X = list_to_set (seqZ 0 (S + 1))) as ->.
  { apply set_eq. intros x. rewrite HX, elem_of_list_to_set, elem_of_seqZ. lia. }
  rewrite size_list_to_set by apply NoDup_seqZ.
  rewrite length_seqZ. lia.
Qed.

(** The number of input timesteps that influence one output timestep of
    the stack of a network with a layer. *)
Lemma influences_count (net : t) :
  1 <= kernel_size net ->
  Z.of_nat (size (influences (layers_ net))) = Spec.one_plus_spans (layers_ net).
Proof.
  intros Hk. destruct (layers_structure net) as [Hc Hs].
  destruct (influences_interval (kernel_size net) (layers_ net)) as (HS & Hint & _);
    [exact Hk| |exact Hc|exact Hs|].
  - eapply Forall_impl; [apply layers_fields|]. intros l [_ H]. exact H.
  - rewrite one_plus_spans_eq, (size_interval _ _ HS Hint). lia.
Qed.

End Influence.

(** * The claims *)

Section WaveNetClaims.

Import WNNetwork.

Lemma shift_diff_span (l : WaveNetLayer.t) :
  WaveNetLayer.pad_input l = 0 -> WaveNetLayer.shift_diff l = span l.
Proof. intros Hp. unfold WaveNetLayer.shift_diff. rewrite Hp. reflexivity. Qed.

Lemma shift_diffs_spans (net : t) :
  pad_input net = 0 ->
  map WaveNetLayer.shift_diff (layers_ net) = map span (layers_ net).
Proof.
  intros Hp. pose proof (layers_fields net) as Hall.
  induction Hall as [|l ls [Hl _] _ IH]; [reflexivity|].
  cbn [map]. rewrite IH, shift_diff_span by congruence. reflexivity.
Qed.

Lemma block_end_total_zero_tests (wn : list WaveNetLayer.t)
    (fl : list FreqNet.FreqLayer) :
  map WaveNetLayer.receptive_field wn = map FreqNet.layer_receptive_field fl ->
  map (fun l => (WaveNetLayer.layer_i l =? 0)%nat) wn
  = map (fun l => (FreqNet.layer_index l =? 0)%nat) fl ->
  Spec.block_end_total (wn_pairs wn) = Spec.block_end_total (fn_pairs fl).
Proof.
  revert fl. induction wn as [|x wn IH]; intros [|y fl] Hrf Hidx;
    try discriminate; [reflexivity|].
  injection Hrf as Hx Hrf. injection Hidx as _ Hidx.
  specialize (IH fl Hrf Hidx).
  destruct wn as [|x' wn]; destruct fl as [|y' fl]; try discriminate.
  - simpl. exact Hx.
  - injection Hidx as Hz _.
    change (wn_pairs (x :: x' :: wn))
      with ((WaveNetLayer.layer_i x, WaveNetLayer.receptive_field x)
            :: (WaveNetLayer.layer_i x', WaveNetLayer.receptive_field x')
            :: wn_pairs wn).
    change (fn_pairs (y :: y' :: fl))
      with ((FreqNet.layer_index y, FreqNet.layer_receptive_field y)
            :: (FreqNet.layer_index y', FreqNet.layer_receptive_field y')
            :: fn_pairs fl).
    change (wn_pairs (x' :: wn))
      with ((WaveNetLayer.layer_i x', WaveNetLayer.receptive_field x')
            :: wn_pairs wn) in IH.
    change (fn_pairs (y' :: fl))
      with ((FreqNet.layer_index y', FreqNet.layer_receptive_field y')
            :: fn_pairs fl) in IH.
    cbn [Spec.block_end_total] in *. rewrite Hz, Hx, IH. reflexivity.
Qed.

End WaveNetClaims.

(** C7. For every [WaveNetLayer], [dilation] is [kernel_size] raised to the
    power [layer_i]: the product of [layer_i] factors [kernel_size]. *)
Theorem dilation_is_power (l : WaveNetLayer.t) :
  WaveNetLayer.dilation l
  = WaveNetLayer.kernel_size l ^ Z.of_nat (WaveNetLayer.layer_i l)
  /\ WaveNetLayer.dilation l
     = Nat.iter (WaveNetLayer.layer_i l) (Z.mul (WaveNetLayer.kernel_size l)) 1.
Proof.
  split; [reflexivity|]. unfold WaveNetLayer.dilation.
  induction (WaveNetLayer.layer_i l) as [|n IH]; [reflexivity|].
  rewrite Nat2Z.inj_succ, Z.pow_succ_r by lia. simpl. rewrite IH. reflexivity.
Qed.

(** C1 (amended). For every [WNNetwork] with at least one layer, built from
    blocks [n_layers = (n_1, ..., n_B)] with [kernel_size] k >= 2, the
    [receptive_field] computed in [__post_init__] is the number of input
    timesteps that influence one output timestep of the stack, namely
    1 + the sum over all layers of (k - 1) * dilation, which is
    (sum over blocks of k^{n_b}) - (B - 1). *)
Theorem receptive_field_closed_form (net : WNNetwork.t) :
  2 <= WNNetwork.kernel_size net ->
  WNNetwork.layers_ net <> [] ->
  WNNetwork.receptive_field net
  = Z.of_nat (size (influences (WNNetwork.layers_ net)))
  /\ WNNetwork.receptive_field net = Spec.one_plus_spans (WNNetwork.layers_ net)
  /\ Spec.one_plus_spans (WNNetwork.layers_ net)
     = Spec.closed_form (WNNetwork.kernel_size net) (WNNetwork.n_layers net).
Proof.
  intros Hk Hne. split; [|split].
  - rewrite influences_count by lia. apply receptive_field_spans. exact Hne.
  - apply receptive_field_spans. exact Hne.
  - apply spans_closed_form.
Qed.

Lemma receptive_field_closed_form_witness :
  WNNetwork.receptive_field (WNNetwork.mk [3%nat; 2%nat] 3 0 0)
  = Z.of_nat (size (influences (WNNetwork.layers_ (WNNetwork.mk [3%nat; 2%nat] 3 0 0))))
  /\ WNNetwork.receptive_field (WNNetwork.mk [3%nat; 2%nat] 3 0 0)
     = Spec.one_plus_spans (WNNetwork.layers_ (WNNetwork.mk [3%nat; 2%nat] 3 0 0))
  /\ Spec.one_plus_spans (WNNetwork.layers_ (WNNetwork.mk [3%nat; 2%nat] 3 0 0))
     = Spec.closed_form 3 [3%nat; 2%nat].
Proof.
  apply (receptive_field_closed_form (WNNetwork.mk [3%nat; 2%nat] 3 0 0)).
  - simpl. lia.
  - simpl. discriminate.
Defined.

(** C1 as stated fails on a stack without layers, [n_layers = (0,)] or
    [n_layers = ()] with [kernel_size = 2]: the loop leaves 0 where one
    timestep influences the output and both formulas give 1. *)
Lemma receptive_field_no_layer :
  (2 <= WNNetwork.kernel_size (WNNetwork.mk [0%nat] 2 0 0)
   /\ WNNetwork.receptive_field (WNNetwork.mk [0%nat] 2 0 0) = 0
   /\ size (influences (WNNetwork.layers_ (WNNetwork.mk [0%nat] 2 0 0))) = 1%nat
   /\ Spec.one_plus_spans (WNNetwork.layers_ (WNNetwork.mk [0%nat] 2 0 0)) = 1
   /\ Spec.closed_form 2 [0%nat] = 1)
  /\ (WNNetwork.receptive_field (WNNetwork.mk [] 2 0 0) = 0
      /\ size (influences (WNNetwork.layers_ (WNNetwork.mk [] 2 0 0))) = 1%nat
      /\ Spec.one_plus_spans (WNNetwork.layers_ (WNNetwork.mk [] 2 0 0)) = 1
      /\ Spec.closed_form 2 [] = 1).
Proof.
  split.
  - split; [simpl; lia|]. repeat split; vm_compute; reflexivity.
  - repeat split; vm_compute; reflexivity.
Qed.

(** C2 (amended). For every [WNNetwork] with [pad_input == 0] and at least
    one layer, [shift] equals [receptive_field]. *)
Theorem shift_is_receptive_field (net : WNNetwork.t) :
  WNNetwork.pad_input net = 0 ->
  WNNetwork.layers_ net <> [] ->
  WNNetwork.shift net = WNNetwork.receptive_field net.
Proof.
  intros Hp Hne. unfold WNNetwork.shift. rewrite Hp. cbn [Z.eqb].
  rewrite shift_diffs_spans by exact Hp.
  rewrite receptive_field_spans by exact Hne.
  rewrite one_plus_spans_eq. lia.
Qed.

Lemma shift_is_receptive_field_witness :
  WNNetwork.shift (WNNetwork.mk [4%nat; 4%nat] 2 0 0)
  = WNNetwork.receptive_field (WNNetwork.mk [4%nat; 4%nat] 2 0 0).
Proof.
  apply (shift_is_receptive_field (WNNetwork.mk [4%nat; 4%nat] 2 0 0)).
  - reflexivity.
  - simpl. discriminate.
Defined.

(** C2 as stated fails on [WNNetwork(n_layers=())]: the shift is 1, the
    receptive field 0. *)
Lemma shift_no_layer :
  WNNetwork.pad_input (WNNetwork.mk [] 2 0 0) = 0
  /\ WNNetwork.shift (WNNetwork.mk [] 2 0 0) = 1
  /\ WNNetwork.receptive_field (WNNetwork.mk [] 2 0 0) = 0.
Proof. repeat split. Qed.

(** C5 (amended). For every non-empty sequence of layers with the same
    per-layer receptive fields and the same block starts (index 0), the
    loop of [WNNetwork.__post_init__] and [FreqNet.receptive_field] compute
    the same total: the sum, over the layers that end a block, of the
    receptive field minus 1, the last layer counting in full. *)
Theorem receptive_field_loops_agree (wn : list WaveNetLayer.t)
    (fl : list FreqNet.FreqLayer) :
  wn <> [] ->
  map WaveNetLayer.receptive_field wn = map FreqNet.layer_receptive_field fl ->
  map (fun l => (WaveNetLayer.layer_i l =? 0)%nat) wn
  = map (fun l => (FreqNet.layer_index l =? 0)%nat) fl ->
  FreqNet.receptive_field fl = Ok (WNNetwork.rf_loop wn)
  /\ WNNetwork.rf_loop wn = Spec.block_end_total (wn_pairs wn).
Proof.
  intros Hne Hrf Hidx. split; [|apply rf_loop_block_end_total].
  rewrite rf_loop_block_end_total.
  rewrite (block_end_total_zero_tests wn fl Hrf Hidx).
  apply freqnet_receptive_field_total.
  intros ->. destruct wn; [congruence|discriminate].
Qed.

Lemma receptive_field_loops_agree_witness :
  FreqNet.receptive_field
    [FreqNet.mkFreqLayer 0 2; FreqNet.mkFreqLayer 1 4; FreqNet.mkFreqLayer 0 2]
  = Ok (WNNetwork.rf_loop (WNNetwork.layers_ (WNNetwork.mk [2%nat; 1%nat] 2 0 0)))
  /\ WNNetwork.rf_loop (WNNetwork.layers_ (WNNetwork.mk [2%nat; 1%nat] 2 0 0))
     = Spec.block_end_total
         (wn_pairs (WNNetwork.layers_ (WNNetwork.mk [2%nat; 1%nat] 2 0 0))).
Proof.
  apply (receptive_field_loops_agree
           (WNNetwork.layers_ (WNNetwork.mk [2%nat; 1%nat] 2 0 0))
           [FreqNet.mkFreqLayer 0 2; FreqNet.mkFreqLayer 1 4; FreqNet.mkFreqLayer 0 2]).
  - simpl. discriminate.
  - reflexivity.
  - reflexivity.
Defined.

(** C5 as stated fails on the empty sequence of layers: the loop of
    [WNNetwork] totals 0, [FreqNet.receptive_field] raises on
    [self.layers[-1]]. *)
Lemma receptive_field_loops_no_layer :
  WNNetwork.rf_loop [] = 0
  /\ FreqNet.receptive_field [] = Raise IndexError.
Proof. split; reflexivity. Qed.

(** C6 (amended). For every [WNNetwork] with [pad_input == 0], at least one
    layer and [kernel_size >= 1], and every input length [n] with
    [receptive_field <= n <= 2^53], each layer's [output_length] shortens
    its input by (kernel_size - 1) * dilation, and the last element of
    [all_output_lengths(n)] is [n - receptive_field + 1]. *)
Theorem all_output_lengths_last (net : WNNetwork.t) (n : Z) :
  WNNetwork.pad_input net = 0 ->
  WNNetwork.layers_ net <> [] ->
  1 <= WNNetwork.kernel_size net ->
  WNNetwork.receptive_field net <= n <= 2 ^ 53 ->
  (forall (i : nat) (l : WaveNetLayer.t) (m : Z),
     WNNetwork.layers_ net !! i = Some l ->
     (n :: lengths_after (WNNetwork.layers_ net) n) !! i = Some m ->
     WaveNetLayer.output_length l m
     = Ok (m - (WaveNetLayer.kernel_size l - 1) * WaveNetLayer.dilation l))
  /\ WNNetwork.all_output_lengths net n = Ok (lengths_after (WNNetwork.layers_ net) n)
  /\ (lens ← WNNetwork.all_output_lengths net n; WNNetwork.last_item lens)
     = Ok (n - WNNetwork.receptive_field net + 1).
Proof.
  intros Hp Hne Hk [Hlo Hhi].
  rewrite receptive_field_spans, one_plus_spans_eq in * by exact Hne.
  assert (Hall : Forall (fun l => WaveNetLayer.pad_input l = 0 /\ 0 <= span l)
                   (WNNetwork.layers_ net)).
  { eapply Forall_impl; [apply layers_fields|].
    intros l [Hpl Hkl]. split; [congruence|].
    apply span_nonneg. rewrite Hkl. exact Hk. }
  assert (Hrun : WNNetwork.all_output_lengths net n
                 = Ok (lengths_after (WNNetwork.layers_ net) n)).
  { unfold WNNetwork.all_output_lengths, WNNetwork.all_output_lengths_from.
    rewrite (all_output_lengths_from_exact _ n []) by (try exact Hall; lia).
    reflexivity. }
  split; [|split; [exact Hrun|]].
  - apply output_length_along; [exact Hall|lia|lia].
  - rewrite Hrun. cbn [mbind result_bind].
    unfold WNNetwork.last_item. rewrite last_lengths_after by exact Hne.
    f_equal. lia.
Qed.

Lemma all_output_lengths_last_witness :
  (forall (i : nat) (l : WaveNetLayer.t) (m : Z),
     WNNetwork.layers_ (WNNetwork.mk [3%nat; 2%nat] 2 0 0) !! i = Some l ->
     (64 :: lengths_after (WNNetwork.layers_ (WNNetwork.mk [3%nat; 2%nat] 2 0 0)) 64)
       !! i = Some m ->
     WaveNetLayer.output_length l m
     = Ok (m - (WaveNetLayer.kernel_size l - 1) * WaveNetLayer.dilation l))
  /\ WNNetwork.all_output_lengths (WNNetwork.mk [3%nat; 2%nat] 2 0 0) 64
  = Ok (lengths_after (WNNetwork.layers_ (WNNetwork.mk [3%nat; 2%nat] 2 0 0)) 64)
  /\ (lens ← WNNetwork.all_output_lengths (WNNetwork.mk [3%nat; 2%nat] 2 0 0) 64;
      WNNetwork.last_item lens)
     = Ok (64 - WNNetwork.receptive_field (WNNetwork.mk [3%nat; 2%nat] 2 0 0) + 1).
Proof.
  apply (all_output_lengths_last (WNNetwork.mk [3%nat; 2%nat] 2 0 0) 64).
  - reflexivity.
  - simpl. discriminate.
  - simpl. lia.
  - vm_compute. split; discriminate.
Defined.

(** C6 as stated fails in two ways. Without layers [all_output_lengths] is
    the empty tuple, which has no last element. And [output_length] goes
    through floats: one layer of kernel size 2 fed [2^53 + 2] timesteps
    yields [2^53], not [2^53 + 1]. *)
Lemma all_output_lengths_last_fails :
  (WNNetwork.pad_input (WNNetwork.mk [] 2 0 0) = 0
   /\ WNNetwork.receptive_field (WNNetwork.mk [] 2 0 0) <= 5
   /\ (lens ← WNNetwork.all_output_lengths (WNNetwork.mk [] 2 0 0) 5;
       WNNetwork.last_item lens) = Raise IndexError)
  /\ (WNNetwork.pad_input (WNNetwork.mk [1%nat] 2 0 0) = 0
      /\ WNNetwork.receptive_field (WNNetwork.mk [1%nat] 2 0 0) <= 2 ^ 53 + 2
      /\ (lens ← WNNetwork.all_output_lengths (WNNetwork.mk [1%nat] 2 0 0) (2 ^ 53 + 2);
          WNNetwork.last_item lens) = Ok (2 ^ 53)
      /\ 2 ^ 53 + 2 - WNNetwork.receptive_field (WNNetwork.mk [1%nat] 2 0 0) + 1
         = 2 ^ 53 + 1).
Proof.
  split.
  - split; [reflexivity|]. split; [vm_compute; discriminate|reflexivity].
  - split; [reflexivity|]. split; [vm_compute; discriminate|].
    split; vm_compute; reflexivity.
Qed.

Section SplitClaims.

Import DBDataset.

(** [int(N * x)] raises [ValueError] only on a NaN product. *)
Lemma as_ints_ValueError (N : Z) (ps : list float) (msg : string) :
  as_ints N ps = Raise (ValueError msg) ->
  exists (p n' : float),
    p ∈ but_last ps /\ PyFloat.float_of_int N = Ok n'
    /\ Prim2SF (n' * p)%float = S754_nan.
Proof.
  intros H. apply map_result_Raise in H as (p & Hin & Hp).
  unfold PyFloat.mul_int in Hp.
  destruct (PyFloat.float_of_int N) as [n'|e] eqn:En.
  - cbn [mbind result_bind] in Hp. exists p, n'.
    split; [exact Hin|]. split; [reflexivity|].
    unfold PyFloat.int_of_float in Hp.
    destruct (Prim2SF (n' * p)%float); try discriminate. reflexivity.
  - cbn [mbind result_bind] in Hp. unfold PyFloat.float_of_int in En.
    destruct (binary_normalize prec emax N 0 false); congruence.
Qed.

Lemma sum_snoc_rest (N : Z) (cs : list Z) : sum (cs ++ [N - sum cs]) = N.
Proof. rewrite sum_app, sum_cons, sum_nil. lia. Qed.

End SplitClaims.

(** C3 (amended). For every [splits] sequence whose first element is not
    [None], when the lengths are computed without an exception and
    [random_split] returns one subset per length, [split] returns a tuple
    of the length of [splits], with [None] exactly where [splits] has
    [None] and the drawn subsets at the other positions, in their order. *)
Theorem split_positions {Subset : Type} (N : Z)
    (random_split : list DBDataset.number -> result (list Subset))
    (splits : list (option DBDataset.number)) (x : DBDataset.number)
    (ls : list DBDataset.number) (sets : list Subset) :
  splits !! 0%nat = Some (Some x) ->
  DBDataset.lengths N (DBDataset.present splits) = Ok ls ->
  random_split ls = Ok sets ->
  length sets = length ls ->
  exists res : list (option Subset),
    DBDataset.split N random_split splits = Ok res
    /\ length res = length splits
    /\ (forall i : nat, res !! i = Some None <-> splits !! i = Some None)
    /\ omap id res = sets.
Proof.
  intros Hhead Hls Hrs Hlen.
  assert (Hfirst : DBDataset.first_is_None splits = false).
  { destruct splits as [|[n|] splits]; simpl in *; congruence. }
  assert (Hsome : DBDataset.present splits <> []).
  { destruct splits as [|[n|] splits]; simpl in *; congruence. }
  pose proof (lengths_length N _ _ Hsome Hls) as Hll.
  exists (interleave splits sets).
  rewrite split_present by exact Hfirst.
  rewrite Hls. cbn [mbind result_bind]. rewrite Hrs. cbn [mbind result_bind].
  split; [apply place_interleave; [exact Hfirst|congruence]|].
  apply interleave_props. congruence.
Qed.

Lemma split_positions_witness :
  exists res : list (option (Z * Z)),
    DBDataset.split 10 (Torch.random_split 10)
      [Some (DBDataset.Float 0.7); None; Some (DBDataset.Float 0.2); None;
       Some (DBDataset.Float 0.1)] = Ok res
    /\ length res = 5%nat
    /\ (forall i : nat,
          res !! i = Some None
          <-> [Some (DBDataset.Float 0.7); None; Some (DBDataset.Float 0.2); None;
               Some (DBDataset.Float 0.1)] !! i = Some None)
    /\ omap id res = [(0, 7); (7, 2); (9, 1)].
Proof.
  apply (split_positions 10 (Torch.random_split 10)
           [Some (DBDataset.Float 0.7); None; Some (DBDataset.Float 0.2); None;
            Some (DBDataset.Float 0.1)]
           (DBDataset.Float 0.7)
           [DBDataset.Int 7; DBDataset.Int 2; DBDataset.Int 1]
           [(0, 7); (7, 2); (9, 1)]).
  - reflexivity.
  - reflexivity.
  - reflexivity.
  - reflexivity.
Defined.

(** C3 as stated fails when [split] raises although the first element is
    present: with 10 examples and [splits = (1.0, None, 0.0)] the last
    split rounds to zero elements. An empty [splits], which has no [None]
    in front either, yields one subset, not the empty tuple. *)
Lemma split_raises_with_train_present :
  ([Some (DBDataset.Float 1); None; Some (DBDataset.Float 0)] !! 0%nat
   = Some (Some (DBDataset.Float 1))
   /\ DBDataset.split 10 (Torch.random_split 10)
        [Some (DBDataset.Float 1); None; Some (DBDataset.Float 0)]
      = Raise (ValueError DBDataset.last_zero_msg))
  /\ (DBDataset.first_is_None [] = false
      /\ DBDataset.split 10 (Torch.random_split 10) [] = Ok [Some (0, 10)]).
Proof.
  split; (split; [reflexivity|]); vm_compute; reflexivity.
Qed.

(** C4 (amended). For every dataset of length [N] and every [splits] whose
    non-[None] entries are the floats [xs], first entry present: when the
    sum of [xs] is not zero, each [int(N * (x / sum))] for [x] in all but
    the last of [xs] yields a count, and [N] minus the sum of these counts
    is not zero, then [split] hands [random_split] these counts followed by
    [N] minus their sum, and the lengths sum exactly to [N]. *)
Theorem split_float_lengths {Subset : Type} (N : Z)
    (random_split : list DBDataset.number -> result (list Subset))
    (splits : list (option DBDataset.number)) (xs : list float) (cs : list Z) :
  DBDataset.first_is_None splits = false ->
  DBDataset.present splits = map DBDataset.Float xs ->
  (PyFloat.sum xs =? 0)%float = false ->
  Forall2
    (fun x c =>
       (nx ← PyFloat.mul_int N (x / PyFloat.sum xs)%float; PyFloat.int_of_float nx)
       = Ok c)
    (but_last xs) cs ->
  N - sum cs <> 0 ->
  DBDataset.lengths N (DBDataset.present splits)
  = Ok (map DBDataset.Int (cs ++ [N - sum cs]))
  /\ DBDataset.split N random_split splits
     = (sets ← random_split (map DBDataset.Int (cs ++ [N - sum cs]));
        DBDataset.place (DBDataset.none_indices splits) sets)
  /\ sum (cs ++ [N - sum cs]) = N.
Proof.
  intros Hfirst Hxs Hsum Hcs Hlast.
  assert (Hls : DBDataset.lengths N (DBDataset.present splits)
                = Ok (map DBDataset.Int (cs ++ [N - sum cs]))).
  { rewrite Hxs. unfold DBDataset.lengths.
    destruct (the_floats_map xs) as [-> ->].
    unfold DBDataset.float_lengths. rewrite normalize_Ok by exact Hsum.
    cbn [mbind result_bind].
    assert (Hints : DBDataset.as_ints N
                      (map (fun x => (x / PyFloat.sum xs)%float) xs) = Ok cs).
    { unfold DBDataset.as_ints. apply map_result_Forall2.
      rewrite but_last_map.
      change (map (fun x => (x / PyFloat.sum xs)%float) (but_last xs))
        with ((fun x => (x / PyFloat.sum xs)%float) <$> but_last xs).
      apply Forall2_fmap_l. exact Hcs. }
    rewrite Hints. cbn [mbind result_bind].
    rewrite (proj2 (Z.eqb_neq _ _)) by exact Hlast. reflexivity. }
  split; [exact Hls|]. split; [|apply sum_snoc_rest].
  rewrite split_present by exact Hfirst. rewrite Hls. reflexivity.
Qed.

Lemma split_float_lengths_witness :
  DBDataset.lengths 10
    (DBDataset.present [Some (DBDataset.Float 0.8); Some (DBDataset.Float 0.2)])
  = Ok (map DBDataset.Int ([8] ++ [10 - sum [8]]))
  /\ DBDataset.split 10 (Torch.random_split 10)
       [Some (DBDataset.Float 0.8); Some (DBDataset.Float 0.2)]
     = (sets ← Torch.random_split 10 (map DBDataset.Int ([8] ++ [10 - sum [8]]));
        DBDataset.place
          (DBDataset.none_indices
             [Some (DBDataset.Float 0.8); Some (DBDataset.Float 0.2)]) sets)
  /\ sum ([8] ++ [10 - sum [8]]) = 10.
Proof.
  apply (split_float_lengths 10 (Torch.random_split 10)
           [Some (DBDataset.Float 0.8); Some (DBDataset.Float 0.2)]
           [0.8%float; 0.2%float] [8]).
  - reflexivity.
  - reflexivity.
  - reflexivity.
  - repeat constructor.
  - vm_compute. discriminate.
Defined.

(** C4 as stated fails where [split] raises instead of producing sizes:
    with 10 examples, [(0.5, -0.5)] has sum zero and the normalisation
    divides by zero; [(1.0, 0.0)] leaves no element for the last subset. *)
Lemma split_float_raises :
  DBDataset.split 10 (Torch.random_split 10)
    [Some (DBDataset.Float 0.5); Some (DBDataset.Float (-0.5))]
  = Raise ZeroDivisionError
  /\ DBDataset.split 10 (Torch.random_split 10)
       [Some (DBDataset.Float 1); Some (DBDataset.Float 0)]
     = Raise (ValueError DBDataset.last_zero_msg).
Proof. split; vm_compute; reflexivity. Qed.

(** C10 (amended). [split] raises [ValueError] exactly when: the first
    element of [splits] is [None]; or all non-[None] entries are floats and
    the last subset's count, [len(self)] minus the sum of
    [int(len(self) * x)] over the other normalized proportions, is zero; or
    all non-[None] entries are floats and one of these [int(...)] is asked
    to convert a NaN; or [random_split] raises [ValueError] on the lengths
    it is handed. The first three happen before [random_split] is called. *)
Theorem split_ValueError_iff {Subset : Type} (N : Z)
    (random_split : list DBDataset.number -> result (list Subset))
    (splits : list (option DBDataset.number)) (msg : string) :
  DBDataset.split N random_split splits = Raise (ValueError msg)
  <-> (DBDataset.first_is_None splits = true /\ msg = DBDataset.train_none_msg)
      \/ (DBDataset.first_is_None splits = false
          /\ forallb DBDataset.is_float (DBDataset.present splits) = true
          /\ exists ps : list float,
               DBDataset.normalize (DBDataset.the_floats (DBDataset.present splits))
               = Ok ps
               /\ ((exists cs : list Z,
                      DBDataset.as_ints N ps = Ok cs
                      /\ N - sum cs = 0 /\ msg = DBDataset.last_zero_msg)
                   \/ DBDataset.as_ints N ps = Raise (ValueError msg)))
      \/ (DBDataset.first_is_None splits = false
          /\ exists ls : list DBDataset.number,
               DBDataset.lengths N (DBDataset.present splits) = Ok ls
               /\ random_split ls = Raise (ValueError msg)).
Proof.
  destruct (DBDataset.first_is_None splits) eqn:Hfirst.
  - rewrite split_first_None by exact Hfirst. split.
    + intros H. injection H as <-. left. split; reflexivity.
    + intros [[_ ->] | [[Hf _] | [Hf _]]]; [reflexivity|discriminate|discriminate].
  - rewrite split_present by exact Hfirst.
    unfold DBDataset.lengths, DBDataset.float_lengths.
    destruct (forallb DBDataset.is_float (DBDataset.present splits)) eqn:Hall.
    + destruct (DBDataset.normalize
                  (DBDataset.the_floats (DBDataset.present splits)))
        as [ps|e] eqn:Hnorm; cbn [mbind result_bind].
      * destruct (DBDataset.as_ints N ps) as [cs|e] eqn:Hints;
          cbn [mbind result_bind].
        -- destruct (Z.eqb_spec (N - sum cs) 0) as [Hz|Hnz];
             cbn [mbind result_bind].
           ++ split.
              ** intros H. injection H as <-. right. left.
                 split; [reflexivity|]. split; [reflexivity|].
                 exists ps. split; [reflexivity|]. left. exists cs. auto.
              ** intros [[Hf _] | [(_ & _ & ps' & Hps & Hcase) | (_ & ls & Hls & _)]];
                   [discriminate| |discriminate].
                 injection Hps as <-.
                 destruct Hcase as [(cs' & _ & _ & ->) | Hr]; [reflexivity|congruence].
           ++ set (ls := map DBDataset.Int (cs ++ [N - sum cs])).
              destruct (random_split ls) as [sets|e] eqn:Hrs;
                cbn [mbind result_bind].
              ** split.
                 --- intros H. apply place_Raise in H. discriminate.
                 --- intros [[Hf _] | [(_ & _ & ps' & Hps & Hcase) | (_ & ls' & Hls & Hr)]];
                       [discriminate| |].
                     +++ injection Hps as <-.
                         destruct Hcase as [(cs' & Hcs' & Hz & _) | Hr]; congruence.
                     +++ injection Hls as <-. fold ls in Hr. congruence.
              ** split.
                 --- intros H. injection H as ->. right. right.
                     split; [reflexivity|]. exists ls. split; [reflexivity|exact Hrs].
                 --- intros [[Hf _] | [(_ & _ & ps' & Hps & Hcase) | (_ & ls' & Hls & Hr)]];
                       [discriminate| |].
                     +++ injection Hps as <-.
                         destruct Hcase as [(cs' & Hcs' & Hz & _) | Hr]; congruence.
                     +++ injection Hls as <-. fold ls in Hr. congruence.
        -- split.
           ++ intros H. injection H as ->. right. left.
              split; [reflexivity|]. split; [reflexivity|].
              exists ps. split; [reflexivity|]. right. exact Hints.
           ++ intros [[Hf _] | [(_ & _ & ps' & Hps & Hcase) | (_ & ls & Hls & _)]];
                [discriminate| |discriminate].
              injection Hps as <-.
              destruct Hcase as [(cs' & Hcs' & _) | Hr]; congruence.
      * apply normalize_Raise in Hnorm as Hzero. subst e. split.
        -- discriminate.
        -- intros [[Hf _] | [(_ & _ & ps' & Hps & _) | (_ & ls & Hls & _)]];
             discriminate.
    + cbn [mbind result_bind].
      destruct (random_split (DBDataset.present splits)) as [sets|e] eqn:Hrs;
        cbn [mbind result_bind].
      * split.
        -- intros H. apply place_Raise in H. discriminate.
        -- intros [[Hf _] | [(_ & Hfl & _) | (_ & ls' & Hls & Hr)]];
             [discriminate|discriminate|].
           injection Hls as <-. congruence.
      * split.
        -- intros H. injection H as ->. right. right.
           split; [reflexivity|]. eexists. split; [reflexivity|exact Hrs].
        -- intros [[Hf _] | [(_ & Hfl & _) | (_ & ls' & Hls & Hr)]];
             [discriminate|discriminate|].
           injection Hls as <-. congruence.
Qed.

(** C10 as stated fails: with 10 examples and [splits = (inf, 1.0)] the
    first normalized proportion is NaN and [int] raises [ValueError],
    although the first element is present and no last count was computed.
    Besides, [random_split] raises its own [ValueError] before it creates a
    subset when the counts do not add up, as for [splits = (3, 4)]. *)
Lemma split_nan_ValueError :
  (DBDataset.first_is_None
     [Some (DBDataset.Float infinity); Some (DBDataset.Float 1)] = false
   /\ DBDataset.normalize [infinity; 1%float] = Ok [nan; 0%float]
   /\ DBDataset.as_ints 10 [nan; 0%float]
      = Raise (ValueError "cannot convert float NaN to integer")
   /\ DBDataset.split 10 (Torch.random_split 10)
        [Some (DBDataset.Float infinity); Some (DBDataset.Float 1)]
      = Raise (ValueError "cannot convert float NaN to integer"))
  /\ DBDataset.split 10 (Torch.random_split 10)
       [Some (DBDataset.Int 3); Some (DBDataset.Int 4)]
     = Raise (ValueError Torch.sum_mismatch_msg).
Proof. repeat split; vm_compute; reflexivity. Qed.

(** C9 (amended). For every [DBDataset], [hparams] maps a string to a value
    exactly when the string is [f + "_" + k] for a feature [f] of
    [self.features] and an attribute key [k] of that feature holding the
    value, and no later feature of [self.features] has an attribute whose
    parameter name is the same string; it contains nothing else. *)
Theorem hparams_lookup {V : Type} (self : DBDataset.t V) (key : string) (v : V) :
  DBDataset.hparams self !! key = Some v
  <-> exists f k : string,
        last_writer self key f k /\ DBDataset.attrs self f !! k = Some v.
Proof.
  unfold DBDataset.hparams. rewrite hparams_loop_lookup. split.
  - intros (i & f & Hi & Hv & Hlater).
    apply this_feat_lookup in Hv as (k & Hkey & Hk).
    exists f, k. split; [|exact Hk].
    exists i. split; [exact Hi|]. split; [exact Hkey|]. split; [eexists; exact Hk|].
    intros j f' k' Hlt Hj Hsome.
    specialize (Hlater j f' Hlt Hj).
    exact (proj1 (this_feat_lookup_None f' _ key) Hlater k' Hsome).
  - intros (f & k & (i & Hi & Hkey & _ & Hlater) & Hk).
    exists i, f. split; [exact Hi|]. split.
    + apply this_feat_lookup. exists k. split; [exact Hkey|exact Hk].
    + intros j f' Hlt Hj. apply this_feat_lookup_None.
      intros k' Hsome. exact (Hlater j f' k' Hlt Hj Hsome).
Qed.

(** X1. When no two (feature, key) pairs share a parameter name, every
    attribute is in [hparams] under its own name. *)
Corollary hparams_without_collision {V : Type} (self : DBDataset.t V)
    (f k : string) (v : V) :
  (forall f1 k1 f2 k2 : string,
     f1 ∈ DBDataset.features self -> f2 ∈ DBDataset.features self ->
     is_Some (DBDataset.attrs self f1 !! k1) ->
     is_Some (DBDataset.attrs self f2 !! k2) ->
     DBDataset.param_name f1 k1 = DBDataset.param_name f2 k2 -> f1 = f2) ->
  f ∈ DBDataset.features self ->
  DBDataset.attrs self f !! k = Some v ->
  DBDataset.hparams self !! DBDataset.param_name f k = Some v.
Proof.
  intros Hfree Hin Hk. unfold DBDataset.hparams. apply hparams_loop_lookup.
  (* the last position of [f] in [features] *)
  assert (Hlast : exists i, DBDataset.features self !! i = Some f /\
                    forall j, (i < j)%nat -> DBDataset.features self !! j <> Some f).
  { clear Hfree Hk. induction (DBDataset.features self) as [|g gs IH] using rev_ind.
    - inversion Hin.
    - destruct (decide (g = f)) as [->|Hne].
      + exists (length gs). split.
        * rewrite lookup_app_r by lia. rewrite Nat.sub_diag. reflexivity.
        * intros j Hlt Hj. apply lookup_lt_Some in Hj.
          rewrite length_app in Hj. simpl in Hj. lia.
      + apply elem_of_app in Hin as [Hin|Hin];
          [|apply list_elem_of_singleton in Hin; congruence].
        destruct (IH Hin) as (i & Hi & Hafter). exists i. split.
        * rewrite lookup_app_l by (apply lookup_lt_Some in Hi; exact Hi). exact Hi.
        * intros j Hlt Hj.
          destruct (decide (j < length gs)%nat) as [Hjl|Hjl].
          -- rewrite lookup_app_l in Hj by exact Hjl. exact (Hafter j Hlt Hj).
          -- rewrite lookup_app_r in Hj by lia.
             destruct (j - length gs)%nat as [|m]; simpl in Hj;
               [congruence|rewrite lookup_nil in Hj; discriminate]. }
  destruct Hlast as (i & Hi & Hafter).
  exists i, f. split; [exact Hi|]. split.
  - apply this_feat_lookup. exists k. split; [reflexivity|exact Hk].
  - intros j f' Hlt Hj. apply this_feat_lookup_None. intros k' Hsome Heq.
    assert (f' = f).
    { apply (Hfree f' k' f k); [eapply list_elem_of_lookup_2; exact Hj|exact Hin
                                |exact Hsome|eexists; exact Hk|exact Heq]. }
    subst f'. exact (Hafter j Hlt Hj).
Qed.

Lemma hparams_without_collision_witness :
  DBDataset.hparams plain_db !! DBDataset.param_name "b" "x" = Some 2.
Proof.
  apply (hparams_without_collision plain_db "b" "x" 2).
  - intros f1 k1 f2 k2 H1 H2 [v1 Hv1] [v2 Hv2] Heq.
    apply list_elem_of_In in H1, H2. simpl in H1, H2.
    destruct H1 as [<-|[<-|[]]]; destruct H2 as [<-|[<-|[]]];
      try reflexivity; simpl in Hv1, Hv2;
      apply lookup_singleton_Some in Hv1 as [<- _];
      apply lookup_singleton_Some in Hv2 as [<- _];
      vm_compute in Heq; discriminate.
  - right. left.
  - reflexivity.
Defined.

(** C9 as stated fails when two (feature, key) pairs give one string: with
    features [a] (attribute [b_c] = 1) and [a_b] (attribute [c] = 2), the
    name [a_b_c] holds 2, the value of the later feature, not the value 1
    of the attribute [b_c] of [a]. *)
Lemma hparams_collision :
  "a" ∈ DBDataset.features colliding_db
  /\ DBDataset.attrs colliding_db "a" !! "b_c" = Some 1
  /\ DBDataset.param_name "a" "b_c" = "a_b_c"
  /\ DBDataset.hparams colliding_db !! "a_b_c" = Some 2.
Proof.
  split; [left|]. split; [reflexivity|]. split; [reflexivity|].
  vm_compute. reflexivity.
Qed.

Section DataModuleClaims.

Import DBDataset DBDataModule.
Context {Subset : Type}.


End DataModuleClaims.



(** * Further properties of the code *)

Section PaddedStack.

Import WNNetwork.

Lemma output_length_padded (l : WaveNetLayer.t) (m : Z) :
  WaveNetLayer.pad_input l <> 0 -> WaveNetLayer.output_length l m = Ok m.
Proof.
  intros Hl. unfold WaveNetLayer.output_length.
  rewrite (proj2 (Z.eqb_neq _ _) Hl). reflexivity.
Qed.

Lemma padded_for_each (layers : list WaveNetLayer.t) (m : Z) (acc : list Z) :
  Forall (fun l => WaveNetLayer.pad_input l <> 0) layers ->
  for_each
    (fun '(out_length, lengths) layer =>
       out_length' ← WaveNetLayer.output_length layer out_length;
       Ok (out_length', lengths ++ [out_length']))
    layers (m, acc)
  = Ok (m, acc ++ replicate (length layers) m).
Proof.
  revert acc. induction layers as [|l layers IH]; intros acc Hall.
  - simpl. rewrite app_nil_r. reflexivity.
  - apply Forall_cons in Hall as [Hl Hall]. cbn [for_each].
    rewrite output_length_padded by exact Hl. cbn [mbind result_bind].
    rewrite IH by exact Hall. cbn [length replicate].
    rewrite <- app_assoc. reflexivity.
Qed.

Lemma layers_padded (net : t) :
  pad_input net <> 0 ->
  Forall (fun l => WaveNetLayer.pad_input l <> 0) (layers_ net).
Proof.
  intros Hp. eapply Forall_impl; [apply layers_fields|].
  intros l [Hl _]. congruence.
Qed.

Lemma last_item_cons2 {A : Type} (b t : A) (rest : list A) :
  last_item (b :: t :: rest) = Ok (default t (last rest)).
Proof.
  unfold last_item. rewrite !last_cons. destruct (last rest); reflexivity.
Qed.

Lemma last_item_replicate {A : Type} (n : nat) (x : A) :
  last_item (replicate (S n) x) = Ok x.
Proof. unfold last_item. rewrite replicate_S_end, last_snoc. reflexivity. Qed.

Lemma last_item_lengths_after (layers : list WaveNetLayer.t) (n : Z) :
  layers <> [] ->
  last_item (lengths_after layers n) = Ok (n - sum (map span layers)).
Proof.
  intros Hne. unfold last_item. rewrite last_lengths_after by exact Hne.
  reflexivity.
Qed.

Lemma layers_app (ns1 ns2 : list nat) (k a p : Z) :
  layers_ (mk (ns1 ++ ns2) k a p) = layers_ (mk ns1 k a p) ++ layers_ (mk ns2 k a p).
Proof. unfold layers_. cbn [n_layers]. apply bind_app. Qed.

Lemma sum_map_scale {A : Type} (c : Z) (f g : A -> Z) (l : list A) :
  Forall (fun x => g x = c * f x) l -> sum (map g l) = c * sum (map f l).
Proof.
  induction 1 as [|x l Hx _ IH]; cbn [map].
  - rewrite sum_nil. lia.
  - rewrite !sum_cons, IH, Hx. lia.
Qed.

End PaddedStack.

(** X2. [all_output_lengths] of a network that pads its input ([pad_input] not
    0) returns, for every input length and without raising, the input
    length once per layer. *)
Theorem padded_lengths_unchanged (net : WNNetwork.t) (n : Z) :
  WNNetwork.pad_input net <> 0 ->
  WNNetwork.all_output_lengths net n
  = Ok (replicate (length (WNNetwork.layers_ net)) n).
Proof.
  intros Hp. unfold WNNetwork.all_output_lengths, WNNetwork.all_output_lengths_from.
  rewrite padded_for_each by (apply layers_padded; exact Hp). reflexivity.
Qed.

Lemma padded_lengths_unchanged_witness :
  WNNetwork.all_output_lengths (WNNetwork.mk [2%nat; 1%nat] 2 0 1) (2 ^ 60)
  = Ok (replicate (length (WNNetwork.layers_ (WNNetwork.mk [2%nat; 1%nat] 2 0 1)))
          (2 ^ 60)).
Proof.
  apply (padded_lengths_unchanged (WNNetwork.mk [2%nat; 1%nat] 2 0 1) (2 ^ 60)).
  simpl. discriminate.
Defined.

(** X3. [output_shape] of a padding network with at least one layer returns the
    first, the second and the last entry of the input shape. *)
Theorem output_shape_padded (net : WNNetwork.t) (b t : Z) (rest : list Z) :
  WNNetwork.pad_input net <> 0 ->
  WNNetwork.layers_ net <> [] ->
  WNNetwork.output_shape net (b :: t :: rest) = Ok (b, t, default t (last rest)).
Proof.
  intros Hp Hne. unfold WNNetwork.output_shape, WNNetwork.item.
  cbn [lookup list_lookup mbind result_bind].
  rewrite padded_lengths_unchanged by exact Hp. cbn [mbind result_bind].
  destruct (WNNetwork.layers_ net) as [|l ls]; [congruence|].
  cbn [length]. rewrite last_item_replicate. cbn [mbind result_bind].
  rewrite last_item_cons2. reflexivity.
Qed.

Lemma output_shape_padded_witness :
  WNNetwork.output_shape (WNNetwork.mk [3%nat] 2 0 1) [16; 1024; 256]
  = Ok (16, 1024, default 1024 (last [256])).
Proof.
  apply (output_shape_padded (WNNetwork.mk [3%nat] 2 0 1) 16 1024 [256]).
  - simpl. discriminate.
  - simpl. discriminate.
Defined.

(** X4. [output_shape] of a network without layers raises [IndexError] on every
    input shape: the tuple of output lengths has no last element. *)
Theorem output_shape_no_layer (net : WNNetwork.t) (input_shape : list Z) :
  WNNetwork.layers_ net = [] ->
  WNNetwork.output_shape net input_shape = Raise IndexError.
Proof.
  intros Hnil. unfold WNNetwork.output_shape, WNNetwork.item.
  destruct input_shape as [|b [|t rest]]; [reflexivity|reflexivity|].
  cbn [lookup list_lookup mbind result_bind].
  unfold WNNetwork.all_output_lengths. rewrite Hnil. reflexivity.
Qed.

Lemma output_shape_no_layer_witness :
  WNNetwork.output_shape (WNNetwork.mk [0%nat; 0%nat] 2 0 0) [16; 1024; 256]
  = Raise IndexError.
Proof.
  apply (output_shape_no_layer (WNNetwork.mk [0%nat; 0%nat] 2 0 0) [16; 1024; 256]).
  reflexivity.
Defined.

(** X5. [output_shape] of a network with [pad_input == 0], at least one layer
    and [kernel_size >= 1] maps the shape (b, n, ..., d), with
    [receptive_field <= n <= 2^53], to (b, n - receptive_field + 1, d). *)
Theorem output_shape_unpadded (net : WNNetwork.t) (b n : Z) (rest : list Z) :
  WNNetwork.pad_input net = 0 ->
  WNNetwork.layers_ net <> [] ->
  1 <= WNNetwork.kernel_size net ->
  WNNetwork.receptive_field net <= n <= 2 ^ 53 ->
  WNNetwork.output_shape net (b :: n :: rest)
  = Ok (b, n - WNNetwork.receptive_field net + 1, default n (last rest)).
Proof.
  intros Hp Hne Hk [Hlo Hhi].
  rewrite receptive_field_spans, one_plus_spans_eq in * by exact Hne.
  assert (Hall : Forall (fun l => WaveNetLayer.pad_input l = 0 /\ 0 <= span l)
                   (WNNetwork.layers_ net)).
  { eapply Forall_impl; [apply layers_fields|].
    intros l [Hpl Hkl]. split; [congruence|].
    apply span_nonneg. rewrite Hkl. exact Hk. }
  unfold WNNetwork.output_shape, WNNetwork.item.
  cbn [lookup list_lookup mbind result_bind].
  unfold WNNetwork.all_output_lengths, WNNetwork.all_output_lengths_from.
  rewrite (all_output_lengths_from_exact _ n []) by (try exact Hall; lia).
  cbn [mbind result_bind snd app].
  rewrite last_item_lengths_after by exact Hne.
  cbn [mbind result_bind]. rewrite last_item_cons2. cbn [mbind result_bind].
  f_equal. f_equal. f_equal. lia.
Qed.

Lemma output_shape_unpadded_witness :
  WNNetwork.output_shape (WNNetwork.mk [3%nat; 2%nat] 2 0 0) [16; 64; 256]
  = Ok (16, 64 - WNNetwork.receptive_field (WNNetwork.mk [3%nat; 2%nat] 2 0 0) + 1,
        default 64 (last [256])).
Proof.
  apply (output_shape_unpadded (WNNetwork.mk [3%nat; 2%nat] 2 0 0) 16 64 [256]).
  - reflexivity.
  - simpl. discriminate.
  - simpl. lia.
  - vm_compute. split; discriminate.
Defined.

Section PaddingTotals.

Import WNNetwork.

Lemma input_padding_span (l : WaveNetLayer.t) :
  WaveNetLayer.input_padding l = WaveNetLayer.pad_input l * span l.
Proof.
  unfold WaveNetLayer.input_padding, span.
  destruct (Z.eqb_spec (WaveNetLayer.pad_input l) 0) as [->|_]; cbn [negb]; lia.
Qed.

Lemma output_padding_shift_diff (l : WaveNetLayer.t) :
  WaveNetLayer.output_padding l
  = - WaveNetLayer.accum_outputs l * WaveNetLayer.shift_diff l.
Proof. reflexivity. Qed.

Lemma layers_accum (net : t) :
  Forall (fun l => WaveNetLayer.accum_outputs l = accum_outputs net) (layers_ net).
Proof.
  destruct net as [ns k a p]. cbn [accum_outputs].
  induction ns as [|n ns IH]; [constructor|].
  rewrite layers_cons. apply Forall_app. split; [|exact IH].
  unfold block_layers. generalize 0%nat.
  induction n as [|n IHn]; intros s; [constructor|].
  simpl. constructor; [reflexivity|apply IHn].
Qed.

Lemma shift_diffs_zero (net : t) :
  pad_input net <> 0 ->
  sum (map WaveNetLayer.shift_diff (layers_ net)) = 0.
Proof.
  intros Hp. rewrite (sum_map_scale 0 (fun _ => 0)); [lia|].
  eapply Forall_impl; [apply layers_fields|]. intros l [Hl _].
  unfold WaveNetLayer.shift_diff. rewrite Hl.
  rewrite (proj2 (Z.eqb_neq _ _) Hp). reflexivity.
Qed.

End PaddingTotals.

(** X6. Over the layers of a [WNNetwork] with at least one layer, the values of
    [input_padding] add up to [pad_input * (receptive_field - 1)]: with
    [pad_input == 1] the stack pads exactly the timesteps its receptive
    field reaches back. *)
Theorem input_padding_total (net : WNNetwork.t) :
  WNNetwork.layers_ net <> [] ->
  sum (map WaveNetLayer.input_padding (WNNetwork.layers_ net))
  = WNNetwork.pad_input net * (WNNetwork.receptive_field net - 1).
Proof.
  intros Hne. rewrite receptive_field_spans, one_plus_spans_eq by exact Hne.
  rewrite (sum_map_scale (WNNetwork.pad_input net) span).
  - f_equal. lia.
  - eapply Forall_impl; [apply layers_fields|]. intros l [Hl _].
    rewrite input_padding_span, Hl. reflexivity.
Qed.

Lemma input_padding_total_witness :
  sum (map WaveNetLayer.input_padding
         (WNNetwork.layers_ (WNNetwork.mk [3%nat; 2%nat] 2 0 1)))
  = WNNetwork.pad_input (WNNetwork.mk [3%nat; 2%nat] 2 0 1)
    * (WNNetwork.receptive_field (WNNetwork.mk [3%nat; 2%nat] 2 0 1) - 1).
Proof.
  apply (input_padding_total (WNNetwork.mk [3%nat; 2%nat] 2 0 1)).
  simpl. discriminate.
Defined.

(** X7. For every [WNNetwork] whose [pad_input] is not -1, the values of
    [output_padding] over its layers add up to
    [- accum_outputs * (shift - 1)]; they are all 0 as soon as the input is
    padded. *)
Theorem output_padding_total (net : WNNetwork.t) :
  WNNetwork.pad_input net <> -1 ->
  sum (map WaveNetLayer.output_padding (WNNetwork.layers_ net))
  = - WNNetwork.accum_outputs net * (WNNetwork.shift net - 1)
  /\ (WNNetwork.pad_input net <> 0 ->
      Forall (fun l => WaveNetLayer.output_padding l = 0) (WNNetwork.layers_ net)).
Proof.
  intros Hp. split.
  - rewrite (sum_map_scale (- WNNetwork.accum_outputs net) WaveNetLayer.shift_diff).
    + f_equal. unfold WNNetwork.shift.
      destruct (Z.eqb_spec (WNNetwork.pad_input net) 1) as [H1|H1].
      * rewrite shift_diffs_zero by lia. lia.
      * rewrite (proj2 (Z.eqb_neq _ _) Hp). lia.
    + eapply Forall_impl; [apply layers_accum|]. intros l Hl.
      rewrite output_padding_shift_diff, Hl. reflexivity.
  - intros H0. eapply Forall_impl; [apply layers_fields|]. intros l [Hl _].
    unfold WaveNetLayer.output_padding, WaveNetLayer.shift_diff.
    rewrite Hl, (proj2 (Z.eqb_neq _ _) H0). lia.
Qed.

Lemma output_padding_total_witness :
  sum (map WaveNetLayer.output_padding
         (WNNetwork.layers_ (WNNetwork.mk [3%nat; 2%nat] 2 1 0)))
  = - WNNetwork.accum_outputs (WNNetwork.mk [3%nat; 2%nat] 2 1 0)
    * (WNNetwork.shift (WNNetwork.mk [3%nat; 2%nat] 2 1 0) - 1)
  /\ (WNNetwork.pad_input (WNNetwork.mk [3%nat; 2%nat] 2 1 0) <> 0 ->
      Forall (fun l => WaveNetLayer.output_padding l = 0)
        (WNNetwork.layers_ (WNNetwork.mk [3%nat; 2%nat] 2 1 0))).
Proof.
  apply (output_padding_total (WNNetwork.mk [3%nat; 2%nat] 2 1 0)).
  simpl. discriminate.
Defined.

(** X8. Stacking the blocks of two networks that each have a layer, with the
    same kernel size, gives the receptive field
    [receptive_field_1 + receptive_field_2 - 1]. *)
Theorem receptive_field_stacked (ns1 ns2 : list nat) (k a p : Z) :
  WNNetwork.layers_ (WNNetwork.mk ns1 k a p) <> [] ->
  WNNetwork.layers_ (WNNetwork.mk ns2 k a p) <> [] ->
  WNNetwork.receptive_field (WNNetwork.mk (ns1 ++ ns2) k a p)
  = WNNetwork.receptive_field (WNNetwork.mk ns1 k a p)
    + WNNetwork.receptive_field (WNNetwork.mk ns2 k a p) - 1.
Proof.
  intros H1 H2.
  rewrite !receptive_field_spans, !one_plus_spans_eq;
    [|exact H2|exact H1|rewrite layers_app; intros H;
                         apply app_eq_nil in H as [H _]; exact (H1 H)].
  rewrite layers_app, map_app, sum_app. lia.
Qed.

Lemma receptive_field_stacked_witness :
  WNNetwork.receptive_field (WNNetwork.mk ([3%nat] ++ [2%nat; 1%nat]) 2 0 0)
  = WNNetwork.receptive_field (WNNetwork.mk [3%nat] 2 0 0)
    + WNNetwork.receptive_field (WNNetwork.mk [2%nat; 1%nat] 2 0 0) - 1.
Proof.
  apply (receptive_field_stacked [3%nat] [2%nat; 1%nat] 2 0 0).
  - simpl. discriminate.
  - simpl. discriminate.
Defined.

Section ShortInputs.

Import WNNetwork.

Lemma output_length_exact_signed (l : WaveNetLayer.t) (m : Z) :
  WaveNetLayer.pad_input l = 0 ->
  - 2 ^ 53 < m - span l <= 2 ^ 53 ->
  WaveNetLayer.output_length l m = Ok (m - span l).
Proof.
  intros Hp [Hlo Hhi]. unfold WaveNetLayer.output_length.
  rewrite Hp. cbn [Z.eqb negb].
  pose proof pow_2_53_lt_1024 as Hbig.
  set (numerator := m - WaveNetLayer.dilation l * (WaveNetLayer.kernel_size l - 1) - 1).
  assert (Hn : numerator = m - span l - 1) by (unfold numerator, span; lia).
  unfold true_div_1. rewrite binary64_round_exact by lia.
  destruct (Z.leb_spec (2 ^ 1024) (Z.abs numerator)) as [Hov|_]; [lia|].
  cbn [mbind result_bind]. unfold floor_one_plus.
  rewrite binary64_round_exact by lia.
  destruct (Z.leb_spec (2 ^ 1024) (Z.abs (1 + numerator))) as [Hov|_]; [lia|].
  f_equal. lia.
Qed.

Lemma for_each_exact_signed (layers : list WaveNetLayer.t) (m : Z) (acc : list Z) :
  Forall (fun l => WaveNetLayer.pad_input l = 0 /\ 0 <= span l) layers ->
  m <= 2 ^ 53 ->
  - 2 ^ 53 < m - sum (map span layers) ->
  for_each
    (fun '(out_length, lengths) layer =>
       out_length' ← WaveNetLayer.output_length layer out_length;
       Ok (out_length', lengths ++ [out_length']))
    layers (m, acc)
  = Ok (m - sum (map span layers), acc ++ lengths_after layers m).
Proof.
  revert m acc. induction layers as [|l layers IH]; intros m acc Hall Hm Hlo.
  - simpl. rewrite sum_nil, app_nil_r. f_equal. f_equal. lia.
  - pose proof Hall as Hall'. apply Forall_cons in Hall' as [[Hp Hs] Hrest].
    pose proof (spans_nonneg layers Hrest) as Hnn.
    rewrite map_cons, sum_cons in *.
    cbn [for_each]. rewrite output_length_exact_signed by (try exact Hp; lia).
    cbn [mbind result_bind]. rewrite IH by (try exact Hrest; lia).
    cbn [lengths_after]. rewrite <- app_assoc. cbn [app].
    f_equal. f_equal. lia.
Qed.

End ShortInputs.

(** X9. [all_output_lengths] does not refuse an input shorter than the
    receptive field: for a network with [pad_input == 0], at least one
    layer, [kernel_size >= 1] and [receptive_field <= 2^53], an input length
    [0 <= n < receptive_field] yields the last length
    [n - receptive_field + 1], which is zero or negative. *)
Theorem short_input_lengths (net : WNNetwork.t) (n : Z) :
  WNNetwork.pad_input net = 0 ->
  WNNetwork.layers_ net <> [] ->
  1 <= WNNetwork.kernel_size net ->
  0 <= n < WNNetwork.receptive_field net ->
  WNNetwork.receptive_field net <= 2 ^ 53 ->
  (lens ← WNNetwork.all_output_lengths net n; WNNetwork.last_item lens)
  = Ok (n - WNNetwork.receptive_field net + 1)
  /\ n - WNNetwork.receptive_field net + 1 <= 0.
Proof.
  intros Hp Hne Hk [Hlo Hhi] Hrf. split; [|lia].
  rewrite receptive_field_spans, one_plus_spans_eq in * by exact Hne.
  assert (Hall : Forall (fun l => WaveNetLayer.pad_input l = 0 /\ 0 <= span l)
                   (WNNetwork.layers_ net)).
  { eapply Forall_impl; [apply layers_fields|].
    intros l [Hpl Hkl]. split; [congruence|].
    apply span_nonneg. rewrite Hkl. exact Hk. }
  unfold WNNetwork.all_output_lengths, WNNetwork.all_output_lengths_from.
  rewrite (for_each_exact_signed _ n []) by (try exact Hall; lia).
  cbn [mbind result_bind snd app].
  rewrite last_item_lengths_after by exact Hne. f_equal. lia.
Qed.

Lemma short_input_lengths_witness :
  (lens ← WNNetwork.all_output_lengths (WNNetwork.mk [3%nat; 2%nat] 2 0 0) 4;
   WNNetwork.last_item lens)
  = Ok (4 - WNNetwork.receptive_field (WNNetwork.mk [3%nat; 2%nat] 2 0 0) + 1)
  /\ 4 - WNNetwork.receptive_field (WNNetwork.mk [3%nat; 2%nat] 2 0 0) + 1 <= 0.
Proof.
  apply (short_input_lengths (WNNetwork.mk [3%nat; 2%nat] 2 0 0) 4).
  - reflexivity.
  - simpl. discriminate.
  - simpl. lia.
  - vm_compute. split; [discriminate|reflexivity].
  - vm_compute. discriminate.
Defined.


Section FreqNetMethods.

Import FreqNet.

Variable layer_output_length : FreqLayer -> Z -> result Z.

(** One more layer in the chain of output lengths. *)
Let feed (r : result Z) (l : FreqLayer) : result Z :=
  m ← r; layer_output_length l m.

Lemma feed_Raise (layers : list FreqLayer) (e : exn) :
  fold_left feed layers (Raise e) = Raise e.
Proof. induction layers as [|l layers IH]; [reflexivity|exact IH]. Qed.

Lemma freqnet_for_each (layers : list FreqLayer) (m : Z) (acc : list Z) :
  match fold_left feed layers (Ok m) with
  | Ok m' =>
      exists lens,
        for_each
          (fun '(out_length, lengths) layer =>
             out_length' ← layer_output_length layer out_length;
             Ok (out_length', lengths ++ [out_length']))
          layers (m, acc)
        = Ok (m', acc ++ lens)
        /\ length lens = length layers
        /\ (layers <> [] -> last lens = Some m')
  | Raise e =>
      for_each
        (fun '(out_length, lengths) layer =>
           out_length' ← layer_output_length layer out_length;
           Ok (out_length', lengths ++ [out_length']))
        layers (m, acc)
      = Raise e
  end.
Proof.
  revert m acc. induction layers as [|l layers IH]; intros m acc.
  - simpl. exists []. rewrite app_nil_r. split; [reflexivity|].
    split; [reflexivity|congruence].
  - cbn [fold_left for_each]. unfold feed at 2. cbn [mbind result_bind].
    destruct (layer_output_length l m) as [m1|e] eqn:E1; cbn [mbind result_bind].
    + specialize (IH m1 (acc ++ [m1])).
      destruct (fold_left feed layers (Ok m1)) as [m'|e] eqn:Ef.
      * destruct IH as (lens & Hrun & Hlen & Hlast).
        exists (m1 :: lens). rewrite Hrun, <- app_assoc. split; [reflexivity|].
        split; [simpl; lia|]. intros _.
        destruct layers as [|l' layers].
        -- simpl in Ef. injection Ef as <-.
           destruct lens; [reflexivity|discriminate].
        -- rewrite last_cons, Hlast by discriminate. reflexivity.
      * exact IH.
    + rewrite feed_Raise. reflexivity.
Qed.

End FreqNetMethods.

(** X11. [FreqNet.receptive_field] raises exactly on a network without layers,
    and then [IndexError]: [self.layers[i + 1]] is never out of range. *)
Theorem freqnet_receptive_field_errors (layers : list FreqNet.FreqLayer) :
  (FreqNet.receptive_field layers = Raise IndexError <-> layers = [])
  /\ (forall e, FreqNet.receptive_field layers = Raise e -> e = IndexError).
Proof.
  destruct layers as [|l layers].
  - split; [split; reflexivity|]. intros e H. cbv in H. congruence.
  - rewrite freqnet_receptive_field_total by discriminate.
    split; [split; discriminate|discriminate].
Qed.

(** X12. [FreqNet.output_length] feeds the input length through the layers'
    [output_length] in order and returns what the last layer returns; the
    first exception of a layer is the exception of the network, and a
    network without layers raises [IndexError]. [all_output_lengths] has
    one entry per layer. *)
Theorem freqnet_output_length_chain
    (layer_output_length : FreqNet.FreqLayer -> Z -> result Z)
    (layers : list FreqNet.FreqLayer) (n : Z) :
  (layers = [] ->
   FreqNet.output_length layer_output_length layers n = Raise IndexError)
  /\ (layers <> [] ->
      FreqNet.output_length layer_output_length layers n
      = fold_left (fun r l => m ← r; layer_output_length l m) layers (Ok n))
  /\ (forall lens,
        FreqNet.all_output_lengths layer_output_length layers n = Ok lens ->
        length lens = length layers).
Proof.
  pose proof (freqnet_for_each layer_output_length layers n []) as H.
  unfold FreqNet.output_length, FreqNet.all_output_lengths.
  split; [intros ->; reflexivity|].
  destruct (fold_left _ layers (Ok n)) as [m'|e] eqn:Ef.
  - destruct H as (lens & Hrun & Hlen & Hlast). rewrite Hrun.
    cbn [mbind result_bind snd app]. split.
    + intros Hne. rewrite (Hlast Hne). reflexivity.
    + intros lens' Heq. injection Heq as <-. exact Hlen.
  - rewrite H. cbn [mbind result_bind]. split; [reflexivity|discriminate].
Qed.

Section HParamsKeys.

Import DBDataset.
Context {V : Type}.

Lemma hparams_loop_is_Some (att : string -> gmap string V) (feats : list string)
    (key : string) :
  is_Some (fold_left (fun params feat => update params (this_feat feat (att feat)))
             feats ∅ !! key)
  <-> exists f, f ∈ feats /\ is_Some (this_feat f (att f) !! key).
Proof.
  induction feats as [|f0 feats IH] using rev_ind.
  - simpl. rewrite lookup_empty. split; [intros [x Hx]; discriminate|].
    intros (f & Hin & _). inversion Hin.
  - rewrite fold_left_snoc. unfold update at 1.
    rewrite lookup_union_is_Some, IH. split.
    + intros [Hnew | (f & Hin & Hf)].
      * exists f0. split; [|exact Hnew]. apply elem_of_app. right. left.
      * exists f. split; [|exact Hf]. apply elem_of_app. left. exact Hin.
    + intros (f & Hin & Hf). apply elem_of_app in Hin as [Hin|Hin].
      * right. exists f. auto.
      * apply list_elem_of_singleton in Hin. subst f. left. exact Hf.
Qed.

End HParamsKeys.

(** X13. The keys of [hparams] are exactly the strings [f + "_" + k] for a
    feature [f] of [self.features] and an attribute key [k] stored on that
    feature, whether or not two of them coincide. *)
Theorem hparams_keys {V : Type} (self : DBDataset.t V) (key : string) :
  key ∈ dom (DBDataset.hparams self)
  <-> exists f k : string,
        f ∈ DBDataset.features self
        /\ k ∈ dom (DBDataset.attrs self f)
        /\ key = DBDataset.param_name f k.
Proof.
  rewrite elem_of_dom. unfold DBDataset.hparams. rewrite hparams_loop_is_Some.
  split.
  - intros (f & Hin & [v Hv]). apply this_feat_lookup in Hv as (k & Hkey & Hk).
    exists f, k. split; [exact Hin|]. split; [|exact Hkey].
    apply elem_of_dom. eexists. exact Hk.
  - intros (f & k & Hin & Hk & Hkey). apply elem_of_dom in Hk as [v Hv].
    exists f. split; [exact Hin|]. exists v. apply this_feat_lookup.
    exists k. auto.
Qed.

Section SplitFurther.

Import DBDataset.

Lemma int_conversion_Raise (N : Z) (p : float) (e : exn) :
  (nx ← PyFloat.mul_int N p; PyFloat.int_of_float nx) = Raise e ->
  e <> IndexError.
Proof.
  unfold PyFloat.mul_int, PyFloat.float_of_int.
  destruct (binary_normalize prec emax N 0 false); cbn [mbind result_bind];
    unfold PyFloat.int_of_float;
    try (match goal with |- context [Prim2SF ?x] => destruct (Prim2SF x) end);
    intros H; congruence.
Qed.

Lemma lengths_Raise (N : Z) (somes : list number) (e : exn) :
  lengths N somes = Raise e -> e <> IndexError.
Proof.
  unfold lengths, float_lengths.
  destruct (forallb is_float somes); [|discriminate].
  destruct (normalize (the_floats somes)) as [ps|e'] eqn:Hn;
    cbn [mbind result_bind].
  - destruct (as_ints N ps) as [cs|e'] eqn:Ha; cbn [mbind result_bind].
    + destruct (N - sum cs =? 0); cbn [mbind result_bind]; intros H; congruence.
    + intros H. injection H as <-.
      apply map_result_Raise in Ha as (p & _ & Hp).
      exact (int_conversion_Raise N p e' Hp).
  - intros H. injection H as <-. apply normalize_Raise in Hn. congruence.
Qed.

Lemma present_nil_no_None (splits : list (option number)) :
  first_is_None splits = false -> present splits = [] -> splits = [].
Proof.
  destruct splits as [|[x|] splits]; [reflexivity| |discriminate].
  intros _ H. unfold present in H. cbn [omap list_omap id] in H. discriminate.
Qed.

End SplitFurther.

(** X14. When some non-[None] entry of [splits] is not a float, [split] reads
    neither [len(self)] nor the values: it hands the non-[None] entries to
    [random_split] as they are and puts the subsets back around the
    [None]s. *)
Theorem split_counts_unchecked {Subset : Type} (N : Z)
    (random_split : list DBDataset.number -> result (list Subset))
    (splits : list (option DBDataset.number)) :
  DBDataset.first_is_None splits = false ->
  forallb DBDataset.is_float (DBDataset.present splits) = false ->
  DBDataset.split N random_split splits
  = (sets ← random_split (DBDataset.present splits);
     DBDataset.place (DBDataset.none_indices splits) sets).
Proof.
  intros Hfirst Hmixed. rewrite split_present by exact Hfirst.
  unfold DBDataset.lengths. rewrite Hmixed. reflexivity.
Qed.

Lemma split_counts_unchecked_witness :
  DBDataset.split 10 (Torch.random_split 10)
    [Some (DBDataset.Int 300); None; Some (DBDataset.Float 0.5)]
  = (sets ← Torch.random_split 10
              (DBDataset.present
                 [Some (DBDataset.Int 300); None; Some (DBDataset.Float 0.5)]);
     DBDataset.place
       (DBDataset.none_indices
          [Some (DBDataset.Int 300); None; Some (DBDataset.Float 0.5)]) sets).
Proof.
  apply (split_counts_unchecked 10 (Torch.random_split 10)
           [Some (DBDataset.Int 300); None; Some (DBDataset.Float 0.5)]).
  - reflexivity.
  - reflexivity.
Defined.

(** X15. If [random_split] returns one subset per length and never raises
    [IndexError] itself, [split] never raises [IndexError]: the [pop(0)] that
    puts the subsets back around the [None]s never finds the list empty. *)
Theorem split_never_IndexError {Subset : Type} (N : Z)
    (random_split : list DBDataset.number -> result (list Subset))
    (splits : list (option DBDataset.number)) :
  (forall ls sets, random_split ls = Ok sets -> length sets = length ls) ->
  (forall ls e, random_split ls = Raise e -> e <> IndexError) ->
  match DBDataset.split N random_split splits with
  | Raise IndexError => False
  | _ => True
  end.
Proof.
  intros Hlen Herr.
  destruct (DBDataset.first_is_None splits) eqn:Hfirst.
  - rewrite split_first_None by exact Hfirst. exact I.
  - rewrite split_present by exact Hfirst.
    destruct (DBDataset.lengths N (DBDataset.present splits)) as [ls|e] eqn:Hls;
      cbn [mbind result_bind].
    + destruct (random_split ls) as [sets|e] eqn:Hrs; cbn [mbind result_bind].
      * destruct (decide (DBDataset.present splits = [])) as [Hnil|Hsome].
        -- apply present_nil_no_None in Hnil; [|exact Hfirst]. subst splits.
           exact I.
        -- rewrite place_interleave; [exact I|exact Hfirst|].
           rewrite (Hlen ls sets Hrs). exact (lengths_length N _ _ Hsome Hls).
      * pose proof (Herr ls e Hrs). destruct e; try exact I. congruence.
    + pose proof (lengths_Raise N _ e Hls). destruct e; try exact I. congruence.
Qed.

Section TorchStandIn.

Import DBDataset.

Lemma length_cut (offset : Z) (lengths : list Z) :
  length (Torch.cut offset lengths) = length lengths.
Proof.
  revert offset. induction lengths as [|n rest IH]; intros offset; [reflexivity|].
  simpl. rewrite IH. reflexivity.
Qed.

Lemma torch_random_split_length (N : Z) (ls : list number) (sets : list (Z * Z)) :
  Torch.random_split N ls = Ok sets -> length sets = length ls.
Proof.
  unfold Torch.random_split.
  destruct (map_result _ ls) as [ints|e] eqn:Hints; cbn [mbind result_bind];
    [|discriminate].
  destruct (sum ints =? N); [|discriminate].
  intros H. injection H as <-. rewrite length_cut.
  exact (map_result_length _ _ _ Hints).
Qed.

Lemma torch_random_split_Raise (N : Z) (ls : list number) (e : exn) :
  Torch.random_split N ls = Raise e -> e <> IndexError.
Proof.
  unfold Torch.random_split.
  destruct (map_result _ ls) as [ints|e'] eqn:Hints; cbn [mbind result_bind].
  - destruct (sum ints =? N); intros H; congruence.
  - intros H. injection H as <-.
    apply map_result_Raise in Hints as (x & _ & Hx).
    destruct x; congruence.
Qed.

End TorchStandIn.

Lemma split_never_IndexError_witness :
  match DBDataset.split 10 (Torch.random_split 10)
          [Some (DBDataset.Float 0.7); None; Some (DBDataset.Float 0.3)] with
  | Raise IndexError => False
  | _ => True
  end.
Proof.
  apply (split_never_IndexError 10 (Torch.random_split 10)
           [Some (DBDataset.Float 0.7); None; Some (DBDataset.Float 0.3)]).
  - apply torch_random_split_length.
  - apply torch_random_split_Raise.
Defined.

(** With a [random_split] that returns too few subsets the [pop(0)] does
    run dry. *)
Example split_pop_runs_dry :
  DBDataset.split 10 (fun _ => Ok ([] : list (Z * Z)))
    [Some (DBDataset.Int 7); None; Some (DBDataset.Int 3)]
  = Raise IndexError.
Proof. reflexivity. Qed.

Section LoaderKwargs.

Import DBDataModule.

Lemma filter_fold_lookup (valids : gset string) (items : list (string * value))
    (k : string) (v : value) :
  NoDup items.*1 ->
  fold_left
    (fun d kv => if bool_decide (fst kv ∈ valids) then <[fst kv := snd kv]> d else d)
    items (∅ : gmap string value) !! k = Some v
  <-> k ∈ valids /\ (k, v) ∈ items.
Proof.
  induction items as [|[k0 v0] items IH] using rev_ind; intros Hnd.
  - simpl. rewrite lookup_empty. split; [discriminate|].
    intros [_ Hin]. inversion Hin.
  - rewrite fmap_app in Hnd. apply NoDup_app in Hnd as (Hnd & Hfresh & _).
    rewrite fold_left_snoc. cbn [fst snd].
    assert (Hk0 : forall v', (k0, v') ∈ items -> False).
    { intros v' Hin. apply (Hfresh k0).
      - apply list_elem_of_fmap. exists (k0, v'). split; [reflexivity|exact Hin].
      - simpl. apply list_elem_of_singleton. reflexivity. }
    case_bool_decide as Hv.
    + rewrite lookup_insert_Some, (IH Hnd). split.
      * intros [[<- <-] | [Hne [Hin Hitems]]].
        -- split; [exact Hv|]. apply elem_of_app. right.
           apply list_elem_of_singleton. reflexivity.
        -- split; [exact Hin|]. apply elem_of_app. left. exact Hitems.
      * intros [Hin Hitems]. apply elem_of_app in Hitems as [Hitems|Hitems].
        -- right. split; [|split; [exact Hin|exact Hitems]].
           intros <-. exact (Hk0 v Hitems).
        -- apply list_elem_of_singleton in Hitems. injection Hitems as -> ->.
           left. split; reflexivity.
    + rewrite (IH Hnd). split.
      * intros [Hin Hitems]. split; [exact Hin|]. apply elem_of_app. left.
        exact Hitems.
      * intros [Hin Hitems]. split; [exact Hin|].
        apply elem_of_app in Hitems as [Hitems|Hitems]; [exact Hitems|].
        apply list_elem_of_singleton in Hitems. injection Hitems as -> ->.
        contradiction.
Qed.

Lemma filter_kwargs_Some (valids : gset string) (kwargs : gmap string value)
    (k : string) (v : value) :
  _filter_loader_kwargs valids kwargs !! k = Some v
  <-> k ∈ valids /\ kwargs !! k = Some v.
Proof.
  unfold _filter_loader_kwargs.
  rewrite filter_fold_lookup by apply NoDup_fst_map_to_list.
  rewrite elem_of_map_to_list. reflexivity.
Qed.

End LoaderKwargs.

(** X16. [_filter_loader_kwargs] keeps the keyword arguments whose name is a
    parameter of [DataLoader.__init__] with their values, drops the others
    without raising, and filtering twice changes nothing more. *)
Theorem filter_loader_kwargs_spec (valids : gset string)
    (kwargs : gmap string DBDataModule.value) :
  (forall k : string,
     DBDataModule._filter_loader_kwargs valids kwargs !! k
     = if bool_decide (k ∈ valids) then kwargs !! k else None)
  /\ DBDataModule._filter_loader_kwargs valids
       (DBDataModule._filter_loader_kwargs valids kwargs)
     = DBDataModule._filter_loader_kwargs valids kwargs.
Proof.
  assert (Hlook : forall kw k,
            DBDataModule._filter_loader_kwargs valids kw !! k
            = if bool_decide (k ∈ valids) then kw !! k else None).
  { intros kw k. apply option_eq. intros v. rewrite filter_kwargs_Some.
    case_bool_decide; split; try tauto; try discriminate. }
  split; [apply Hlook|].
  apply map_eq. intros k. rewrite !Hlook. case_bool_decide; reflexivity.
Qed.

Section Loaders.

Import DBDataset DBDataModule.
Context {Subset : Type}.


End Loaders.





(** A prepared module with three splits and no fit setup serves a test
    loader over [None]. *)
Example test_loader_over_None :
  DBDataModule.test_ds prepared_module = None
  /\ DBDataModule.has_test prepared_module = true.
Proof. split; reflexivity. Qed.



(** The keyword argument [colour] given to the constructor is not among the
    arguments of the loaders, [batch_size] is. *)
Example unsplit_module_kwargs :
  DBDataModule.loader_kwargs unsplit_module
  = {["batch_size" := DBDataModule.VInt 16]}.
Proof. vm_compute. reflexivity. Qed.

(** X20. On a data module without a validation split ([splits] is [None], has
    fewer than two entries, or its second entry is [None]),
    [random_val_batch] raises [TypeError]: it iterates over the [None] that
    [val_dataloader] returns. *)
Theorem random_val_batch_without_split {Subset Batch : Type}
    (prepare_dataset : @DBDataModule.t Subset -> result (@DBDataModule.t Subset))
    (len_db : Z)
    (random_split : list DBDataset.number -> result (list Subset))
    (cuda_is_available : bool) (db_to_cuda : result unit)
    (first_batch : @DBDataModule.DataLoader Subset -> DataSubModule.outcome Batch)
    (datamodule : @DBDataModule.t Subset) :
  DBDataModule.has_val datamodule = false ->
  DataSubModule.random_val_batch prepare_dataset len_db random_split
    cuda_is_available db_to_cuda first_batch datamodule
  = DataSubModule.Failed (DataSubModule.TypeError DataSubModule.not_iterable_msg).
Proof.
  intros Hval. unfold DataSubModule.random_val_batch, DBDataModule.val_dataloader.
  rewrite Hval. reflexivity.
Qed.

Lemma random_val_batch_without_split_witness :
  DataSubModule.random_val_batch (fun dm => Ok dm) 10 (Torch.random_split 10)
    false (Ok tt) (fun _ => DataSubModule.Returned tt) unsplit_module
  = DataSubModule.Failed (DataSubModule.TypeError DataSubModule.not_iterable_msg).
Proof.
  apply (random_val_batch_without_split (fun dm => Ok dm) 10
           (Torch.random_split 10) false (Ok tt)
           (fun _ => DataSubModule.Returned tt) unsplit_module).
  reflexivity.
Defined.

(** X21. [layers_] builds [sum(n_layers)] layers. All carry the network's
    [kernel_size], [pad_input] and [accum_outputs]; the index of the first
    is 0, and from one layer to the next it grows by one or restarts
    at 0. *)
Theorem layers_stack_structure (net : WNNetwork.t) :
  length (WNNetwork.layers_ net) = foldr Nat.add 0%nat (WNNetwork.n_layers net)
  /\ Forall
       (fun l =>
          WaveNetLayer.kernel_size l = WNNetwork.kernel_size net
          /\ WaveNetLayer.pad_input l = WNNetwork.pad_input net
          /\ WaveNetLayer.accum_outputs l = WNNetwork.accum_outputs net)
       (WNNetwork.layers_ net)
  /\ (forall l, head (WNNetwork.layers_ net) = Some l -> WaveNetLayer.layer_i l = 0%nat)
  /\ (forall (i : nat) (l l' : WaveNetLayer.t),
        WNNetwork.layers_ net !! i = Some l ->
        WNNetwork.layers_ net !! S i = Some l' ->
        WaveNetLayer.layer_i l' = 0%nat
        \/ WaveNetLayer.layer_i l' = S (WaveNetLayer.layer_i l)).
Proof.
  split; [|split; [|split]].
  - destruct net as [ns k a p]. induction ns as [|n ns IH]; [reflexivity|].
    rewrite layers_cons, length_app, IH. cbn [WNNetwork.n_layers foldr]. f_equal.
    unfold block_layers. generalize 0%nat.
    induction n as [|n IHn]; intros s; [reflexivity|].
    simpl. rewrite IHn. reflexivity.
  - pose proof (layers_fields net) as Hf. pose proof (layers_accum net) as Ha.
    induction Hf as [|l ls [Hp Hk] _ IH]; [constructor|].
    apply Forall_cons in Ha as [Hal Ha]. constructor; [auto|exact (IH Ha)].
  - destruct (layers_structure net) as [_ Hs]. intros l Hl.
    destruct (WNNetwork.layers_ net); [discriminate|].
    injection Hl as <-. exact Hs.
  - destruct (layers_structure net) as [Hc _].
    induction (WNNetwork.layers_ net) as [|x ls IH]; intros i l l' Hl Hl'.
    + rewrite lookup_nil in Hl. discriminate.
    + destruct ls as [|y ls]; [destruct i; discriminate|].
      destruct Hc as [Hxy Hc]. destruct i as [|i].
      * simpl in Hl, Hl'. injection Hl as <-. injection Hl' as <-.
        destruct Hxy as [H0|[HS _]]; auto.
      * exact (IH Hc i l l' Hl Hl').
Qed.

(** X22. A single float proportion takes the whole dataset, whatever its value:
    for [splits = [x]] with a float [x] whose sum is not zero, on a dataset
    of length [N] other than 0, [split] asks [random_split] for the one
    length [N]. *)
Theorem split_single_float {Subset : Type} (N : Z)
    (random_split : list DBDataset.number -> result (list Subset)) (x : float) :
  (PyFloat.sum [x] =? 0)%float = false ->
  N <> 0 ->
  DBDataset.lengths N [DBDataset.Float x] = Ok [DBDataset.Int N]
  /\ DBDataset.split N random_split [Some (DBDataset.Float x)]
     = (sets ← random_split [DBDataset.Int N]; Ok (map Some sets)).
Proof.
  intros Hsum HN.
  assert (Hls : DBDataset.lengths N [DBDataset.Float x] = Ok [DBDataset.Int N]).
  { unfold DBDataset.lengths. cbn [forallb DBDataset.is_float andb].
    unfold DBDataset.float_lengths.
    change (DBDataset.the_floats [DBDataset.Float x]) with [x].
    rewrite normalize_Ok by exact Hsum. cbn [mbind result_bind map].
    unfold DBDataset.as_ints, but_last. cbn [length Nat.sub take map_result].
    cbn [mbind result_bind]. rewrite sum_nil, Z.sub_0_r.
    rewrite (proj2 (Z.eqb_neq _ _) HN). reflexivity. }
  split; [exact Hls|].
  rewrite split_present by reflexivity.
  change (DBDataset.present [Some (DBDataset.Float x)]) with [DBDataset.Float x].
  rewrite Hls. reflexivity.
Qed.

Lemma split_single_float_witness :
  DBDataset.lengths 10 [DBDataset.Float 0.3] = Ok [DBDataset.Int 10]
  /\ DBDataset.split 10 (Torch.random_split 10) [Some (DBDataset.Float 0.3)]
     = (sets ← Torch.random_split 10 [DBDataset.Int 10]; Ok (map Some sets)).
Proof.
  apply (split_single_float 10 (Torch.random_split 10) 0.3%float).
  - reflexivity.
  - discriminate.
Defined.
